(** * Information gain (mlpack decision trees): model and verification

    Source: [src/mlpack/methods/decision_tree/information_gain.hpp],
    class [InformationGain] with its two static functions [Evaluate] and
    [Range].

    Modelling choices.
    - [size_t] values (labels, [numClasses], loop counters) are [nat]: the
      code does no arithmetic on them besides counting a loop up to a bound.
    - [arma::Row] and [arma::Col] are lists.  [operator[]] does no bounds
      check; an access out of bounds is undefined behaviour, which the model
      makes explicit as the result [None].
    - The template parameter [UseWeights] is a [bool] argument.
    - The code is translated over two arithmetics.
      [IEEE] is the arithmetic of the program: a C++ [double] is a binary64
      number of IEEE 754 and every operation rounds, overflows and
      underflows as the hardware does.  What fails there fails in the
      program.
      [Double] is the arithmetic in which the specification reasons: a
      [double] is an extended real (a real number, one of the two
      infinities, or NaN); the special values follow IEEE 754 (a log of
      zero is minus infinity, zero times infinity is NaN, comparisons with
      NaN are false, ...), the finite values are added, multiplied and
      divided exactly, and the two signed zeros are one value.  It is used
      for the properties that do not depend on rounding: those that rest on
      the guards and the special values, on whole-number counts, and on
      inputs on which every operation of the program is exact. *)

From Stdlib Require Import Floats.
From Stdlib Require Import Reals List Arith Bool Lia Lra Permutation.
Import ListNotations.

Local Open Scope R_scope.

(** ** Doubles as extended reals *)

Module Double.

Inductive double : Type :=
| Fin (r : R)
| PInf
| NInf
| NaN.

Definition zero : double := Fin 0.
Definition one : double := Fin 1.

(** Conversion [(double) n] of a [size_t]. *)
Definition of_nat (n : nat) : double := Fin (INR n).

Definition is_finite (x : double) : Prop :=
  match x with Fin _ => True | _ => False end.

(** [x + y]. *)
Definition add (x y : double) : double :=
  match x, y with
  | NaN, _ | _, NaN => NaN
  | Fin a, Fin b => Fin (a + b)
  | PInf, NInf | NInf, PInf => NaN
  | PInf, _ | _, PInf => PInf
  | NInf, _ | _, NInf => NInf
  end.

(** The sign of a real: [Lt] negative, [Eq] zero, [Gt] positive. *)
Definition Rsign (r : R) : comparison :=
  match total_order_T 0 r with
  | inleft (left _) => Gt
  | inleft (right _) => Eq
  | inright _ => Lt
  end.

Definition sign (x : double) : option comparison :=
  match x with
  | Fin r => Some (Rsign r)
  | PInf => Some Gt
  | NInf => Some Lt
  | NaN => None
  end.

(** The infinity of the sign of [s * t]; a zero sign counts as positive
    (signed zeros are not told apart). *)
Definition inf_of_signs (s t : comparison) : double :=
  match s, t with
  | Lt, Lt => PInf
  | Lt, _ | _, Lt => NInf
  | _, _ => PInf
  end.

(** The sign of an infinity ([Gt] for anything else). *)
Definition inf_sign (x : double) : comparison :=
  match x with NInf => Lt | _ => Gt end.

(** [x * y]. *)
Definition mul (x y : double) : double :=
  match x, y with
  | Fin a, Fin b => Fin (a * b)
  | _, _ =>
      match sign x, sign y with
      | None, _ | _, None => NaN
      | Some Eq, _ | _, Some Eq => NaN
      | Some s, Some t => inf_of_signs s t
      end
  end.

(** [x / y]. *)
Definition div (x y : double) : double :=
  match x, y with
  | NaN, _ | _, NaN => NaN
  | Fin a, Fin b =>
      match Rsign b with
      | Eq => match Rsign a with
              | Eq => NaN
              | s => inf_of_signs s Gt
              end
      | _ => Fin (a / b)
      end
  | Fin _, _ => Fin 0
  | _, Fin b => inf_of_signs (inf_sign x) (Rsign b)
  | _, _ => NaN
  end.

(** The real logarithm in base 2. *)
Definition Rlog2 (r : R) : R := ln r / ln 2.

(** [std::log2(x)]. *)
Definition log2 (x : double) : double :=
  match x with
  | Fin r => match Rsign r with
             | Gt => Fin (Rlog2 r)
             | Eq => NInf
             | Lt => NaN
             end
  | PInf => PInf
  | NInf => NaN
  | NaN => NaN
  end.

(** [x > y]. *)
Definition gtb (x y : double) : bool :=
  match x, y with
  | NaN, _ | _, NaN => false
  | Fin a, Fin b => if Rlt_dec b a then true else false
  | PInf, PInf => false
  | PInf, _ => true
  | _, NInf => match x with NInf => false | _ => true end
  | _, _ => false
  end.

(** [x == y]. *)
Definition eqb (x y : double) : bool :=
  match x, y with
  | Fin a, Fin b => if Req_dec_T a b then true else false
  | PInf, PInf | NInf, NInf => true
  | _, _ => false
  end.

End Double.

Import Double.

Declare Scope double_scope.
Delimit Scope double_scope with D.
Bind Scope double_scope with double.
Infix "+" := add : double_scope.
Infix "*" := mul : double_scope.
Infix "/" := div : double_scope.
Infix ">?" := gtb (at level 70) : double_scope.
Infix "==?" := eqb (at level 70) : double_scope.

(** ** Undefined behaviour as a partial result *)

Definition bind {A B : Type} (m : option A) (k : A -> option B) : option B :=
  match m with
  | Some a => k a
  | None => None
  end.

Notation "x <- m ;; k" := (bind m (fun x => k))
  (at level 61, m at next level, right associativity).
Notation "' p <- m ;; k" := (bind m (fun x => let p := x in k))
  (at level 61, p pattern, m at next level, right associativity).

(** [for (size_t i = start; i < start + n; ++i) body]: the loop state is
    threaded through; an undefined step makes the whole loop undefined. *)
Fixpoint for_from {St : Type} (start n : nat) (body : nat -> St -> option St)
    (s : St) : option St :=
  match n with
  | O => Some s
  | S k => s' <- body start s ;; for_from (S start) k body s'
  end.

(** [for (size_t i = 0; i < n; ++i) body]. *)
Definition for_loop {St : Type} (n : nat) (body : nat -> St -> option St)
    (s : St) : option St :=
  for_from 0 n body s.

(** ** Vectors *)

(** [v[k] = x] on a vector that holds index [k]. *)
Fixpoint store (v : list double) (k : nat) (x : double) : list double :=
  match v, k with
  | [], _ => []
  | _ :: v', O => x :: v'
  | y :: v', S k' => y :: store v' k' x
  end.

(** [v[k] += w]; undefined when [k] is out of bounds. *)
Definition add_at (v : list double) (k : nat) (w : double)
    : option (list double) :=
  c <- nth_error v k ;; Some (store v k (c + w)%D).

(** [counts(numClasses); counts.zeros()]. *)
Definition zeros (n : nat) : list double := repeat zero n.

(** ** The class [InformationGain] *)

Module InformationGain.

(** Body of the loop of lines 55-61: [counts[labels[i]] += weights[i];
    accWeights += weights[i]]. *)
Definition tally_weighted (labels : list nat) (weights : list double)
    (i : nat) (st : list double * double) : option (list double * double) :=
  let '(counts, accWeights) := st in
  l <- nth_error labels i ;;
  w <- nth_error weights i ;;
  counts' <- add_at counts l w ;;
  Some (counts', (accWeights + w)%D).

(** Body of the loop of lines 76-77: [counts[labels[i]]++]. *)
Definition tally (labels : list nat) (i : nat) (counts : list double)
    : option (list double) :=
  l <- nth_error labels i ;;
  add_at counts l one.

(** Body of the loops of lines 67-72 and 79-84:
    [f = counts[i] / denom; if (f > 0.0) gain += f * std::log2(f)]. *)
Definition accumulate (counts : list double) (denom : double)
    (i : nat) (gain : double) : option double :=
  c <- nth_error counts i ;;
  let f := (c / denom)%D in
  if (f >? zero)%D then Some (gain + f * log2 f)%D else Some gain.

(** [InformationGain::Evaluate<UseWeights>(labels, numClasses, weights)]. *)
Definition Evaluate (UseWeights : bool) (labels : list nat)
    (numClasses : nat) (weights : list double) : option double :=
  if Nat.eqb (length labels) 0 then Some zero
  else
    let gain := zero in
    let counts := zeros numClasses in
    if UseWeights then
      let accWeights := zero in
      '(counts, accWeights) <-
        for_loop (length labels) (tally_weighted labels weights)
                 (counts, accWeights) ;;
      if (accWeights ==? zero)%D then Some zero
      else for_loop numClasses (accumulate counts accWeights) gain
    else
      counts <- for_loop (length labels) (tally labels) counts ;;
      for_loop numClasses (accumulate counts (of_nat (length labels))) gain.

(** [InformationGain::Range(numClasses)]. *)
Definition Range (numClasses : nat) : double := log2 (of_nat numClasses).

End InformationGain.

Import InformationGain.

(** ** The same code over an arbitrary arithmetic

    [Evaluate] and [Range] once more, from the same source lines, with the
    type of the numbers and its operations as parameters.  The instance
    [exact] is the arithmetic of [Double] above; the instance [binary64]
    below is IEEE 754 double precision, in which every operation rounds,
    overflows and underflows as the hardware does. *)

Record arithmetic : Type := Arithmetic {
  num : Type;
  num_zero : num;                       (* 0.0 *)
  num_one : num;                        (* 1.0 *)
  num_add : num -> num -> num;          (* x + y *)
  num_mul : num -> num -> num;          (* x * y *)
  num_div : num -> num -> num;          (* x / y *)
  num_log2 : num -> num;                (* std::log2(x) *)
  num_gtb : num -> num -> bool;         (* x > y *)
  num_eqb : num -> num -> bool;         (* x == y *)
  num_of_nat : nat -> num               (* (double) n *)
}.

Module Generic.

Section Code.

Variable A : arithmetic.

(** [v[k] = x] on a vector that holds index [k]. *)
Fixpoint store (v : list (num A)) (k : nat) (x : num A) : list (num A) :=
  match v, k with
  | [], _ => []
  | _ :: v', O => x :: v'
  | y :: v', S k' => y :: store v' k' x
  end.

(** [v[k] += w]; undefined when [k] is out of bounds. *)
Definition add_at (v : list (num A)) (k : nat) (w : num A) : option (list (num A)) :=
  c <- nth_error v k ;; Some (store v k (num_add A c w)).

(** [counts(numClasses); counts.zeros()]. *)
Definition zeros (n : nat) : list (num A) := repeat (num_zero A) n.

(** Body of the loop of lines 55-61. *)
Definition tally_weighted (labels : list nat) (weights : list (num A))
    (i : nat) (st : list (num A) * num A) : option (list (num A) * num A) :=
  let '(counts, accWeights) := st in
  l <- nth_error labels i ;;
  w <- nth_error weights i ;;
  counts' <- add_at counts l w ;;
  Some (counts', num_add A accWeights w).

(** Body of the loop of lines 76-77. *)
Definition tally (labels : list nat) (i : nat) (counts : list (num A))
    : option (list (num A)) :=
  l <- nth_error labels i ;;
  add_at counts l (num_one A).

(** Body of the loops of lines 67-72 and 79-84. *)
Definition accumulate (counts : list (num A)) (denom : num A) (i : nat) (gain : num A)
    : option (num A) :=
  c <- nth_error counts i ;;
  let f := num_div A c denom in
  if num_gtb A f (num_zero A)
  then Some (num_add A gain (num_mul A f (num_log2 A f)))
  else Some gain.

(** [InformationGain::Evaluate<UseWeights>(labels, numClasses, weights)]. *)
Definition Evaluate (UseWeights : bool) (labels : list nat)
    (numClasses : nat) (weights : list (num A)) : option (num A) :=
  if Nat.eqb (length labels) 0 then Some (num_zero A)
  else
    let gain := num_zero A in
    let counts := zeros numClasses in
    if UseWeights then
      let accWeights := num_zero A in
      '(counts, accWeights) <-
        for_loop (length labels) (tally_weighted labels weights)
                 (counts, accWeights) ;;
      if num_eqb A accWeights (num_zero A) then Some (num_zero A)
      else for_loop numClasses (accumulate counts accWeights) gain
    else
      counts <- for_loop (length labels) (tally labels) counts ;;
      for_loop numClasses
               (accumulate counts (num_of_nat A (length labels))) gain.

(** [InformationGain::Range(numClasses)]. *)
Definition Range (numClasses : nat) : num A :=
  num_log2 A (num_of_nat A numClasses).

End Code.

End Generic.

(** The arithmetic of [Double]: exact on the finite values. *)
Definition exact : arithmetic :=
  {| num := double;
     num_zero := zero;
     num_one := one;
     num_add := add;
     num_mul := mul;
     num_div := div;
     num_log2 := log2;
     num_gtb := gtb;
     num_eqb := eqb;
     num_of_nat := of_nat |}.

(** ** IEEE 754 double precision

    The doubles of the program are the kernel's binary64 numbers
    ([PrimFloat.float]); [+], [*], [/], [>] and [==] are the hardware's
    operations, rounding to nearest, ties to even.  [std::log2] belongs to
    the C library, not to the repository: it is modelled as the base-2
    logarithm rounded to nearest, which is exact on the powers of two. *)

Module Binary64.

Import PrimFloat FloatOps SpecFloat.

Local Open Scope Z_scope.

(** One step of the digit-by-digit binary logarithm on an enclosure
    [lo <= y <= hi] of a number in [[1, 2)], in fixed point with [fb]
    fractional bits: square; if the square reaches two the next bit is one
    and the square is halved.  [ok] is lost when the enclosure cannot
    tell. *)
Definition log2_step (fb : Z) (st : Z * Z * Z * bool) : Z * Z * Z * bool :=
  let '(lo, hi, t, ok) := st in
  let lo2 := Z.shiftr (lo * lo) fb in
  let hi2 := Z.shiftr (hi * hi + (Z.shiftl 1 fb - 1)) fb in
  let two := Z.shiftl 2 fb in
  if two <=? lo2
  then (Z.shiftr lo2 1, Z.shiftr (hi2 + 1) 1, 2 * t + 1, ok)
  else if hi2 <? two then (lo2, hi2, 2 * t, ok)
  else (lo2, hi2, 2 * t, false).

(** The logarithm of [m * 2^e], for [2^d <= m < 2^(d+1)], from [lb] bits
    [t] of the logarithm of [m / 2^d]: the logarithm lies between
    [(e + d) + t / 2^lb] and that plus [1 / 2^lb]; when both round to the
    same double, that double is the logarithm rounded to nearest. *)
Definition log2_attempt (fb : Z) (lb : nat) (m : positive) (e d : Z)
    : option float :=
  let y := Z.shiftl (Zpos m) (fb - d) in
  let '(_, _, t, ok) := Nat.iter lb (log2_step fb) (y, y, 0, true) in
  let n := Z.of_nat lb in
  let below := Z.shiftl (e + d) n + t in
  let r := binary_normalize prec emax below (- n) false in
  let r' := binary_normalize prec emax (below + 1) (- n) false in
  if andb ok (SFeqb r r') then Some (SF2Prim r) else None.

(** The logarithm of [m * 2^e], rounded to nearest: exactly [e + d] when
    [m = 2^d]; otherwise from 64 bits of the logarithm of [m / 2^d], or
    from 128 or 256 bits when fewer do not decide the rounding. *)
Definition log2_positive (m : positive) (e : Z) : float :=
  let d := Z.log2 (Zpos m) in
  if Zpos m =? Z.shiftl 1 d
  then SF2Prim (binary_normalize prec emax (e + d) 0 false)
  else
    match log2_attempt 128 64 m e d with
    | Some r => r
    | None =>
        match log2_attempt 256 128 m e d with
        | Some r => r
        | None =>
            match log2_attempt 512 256 m e d with
            | Some r => r
            | None => nan
            end
        end
    end.

(** [std::log2(x)]. *)
Definition log2 (x : float) : float :=
  match Prim2SF x with
  | S754_nan => nan
  | S754_zero _ => neg_infinity
  | S754_infinity false => infinity
  | S754_infinity true => nan
  | S754_finite true _ _ => nan
  | S754_finite false m e => log2_positive m e
  end.

(** Conversion [(double) n] of a [size_t], rounded to nearest. *)
Definition of_nat (n : nat) : float :=
  SF2Prim (binary_normalize prec emax (Z.of_nat n) 0 false).

(** [x > y]. *)
Definition gtb (x y : float) : bool := ltb y x.

End Binary64.

Definition binary64 : arithmetic :=
  {| num := PrimFloat.float;
     num_zero := PrimFloat.zero;
     num_one := PrimFloat.one;
     num_add := PrimFloat.add;
     num_mul := PrimFloat.mul;
     num_div := PrimFloat.div;
     num_log2 := Binary64.log2;
     num_gtb := Binary64.gtb;
     num_eqb := PrimFloat.eqb;
     num_of_nat := Binary64.of_nat |}.

(** The program on IEEE doubles. *)
Module IEEE.

Definition Evaluate : bool -> list nat -> nat -> list PrimFloat.float ->
                      option PrimFloat.float :=
  Generic.Evaluate binary64.

Definition Range : nat -> PrimFloat.float := Generic.Range binary64.

End IEEE.

(** ** Vocabulary of the specification *)

(** The real number a finite double stands for. *)
Definition value (x : double) : R :=
  match x with
  | Fin r => r
  | _ => 0
  end.

(** A weight the contract allows: a non-negative real. *)
Definition nonneg (w : double) : Prop :=
  match w with
  | Fin r => 0 <= r
  | _ => False
  end.

(** A strictly positive real weight. *)
Definition positive (w : double) : Prop :=
  match w with
  | Fin r => 0 < r
  | _ => False
  end.

(** Every label is a valid index into the accumulator. *)
Definition in_range (numClasses : nat) (labels : list nat) : Prop :=
  Forall (fun l => (l < numClasses)%nat) labels.

(** The precondition of [Evaluate]: labels in range and, in weighted mode,
    one non-negative weight per label. *)
Definition valid (UseWeights : bool) (labels : list nat) (numClasses : nat)
    (weights : list double) : Prop :=
  in_range numClasses labels /\
  (UseWeights = true ->
   length weights = length labels /\ Forall nonneg weights).

(** All points share one class. *)
Definition pure (labels : list nat) : Prop :=
  exists c, Forall (fun l => l = c) labels.

(** Number of points of class [c]. *)
Definition count (c : nat) (labels : list nat) : nat :=
  count_occ Nat.eq_dec labels c.

(** Sum of the weights of the points of class [c]. *)
Fixpoint wcount (c : nat) (labels : list nat) (weights : list double) : R :=
  match labels, weights with
  | l :: labels', w :: weights' =>
      (if Nat.eqb l c then value w else 0) + wcount c labels' weights'
  | _, _ => 0
  end.

Definition Rsum (xs : list R) : R := fold_right Rplus 0 xs.

(** Sum of all the weights. *)
Definition total (weights : list double) : R := Rsum (map value weights).

(** The sum of the weights as the code accumulates it in [accWeights]. *)
Definition sum_weights (weights : list double) : double :=
  fold_left add weights zero.

(** Observed frequency of class [c] (unweighted mode). *)
Definition freq (labels : list nat) (c : nat) : R :=
  INR (count c labels) / INR (length labels).

(** Weighted frequency share of class [c] (weighted mode). *)
Definition wfreq (labels : list nat) (weights : list double) (c : nat) : R :=
  wcount c labels weights / total weights.

(** The frequency of the mode in use. *)
Definition frequency (UseWeights : bool) (labels : list nat)
    (weights : list double) : nat -> R :=
  if UseWeights then wfreq labels weights else freq labels.

Definition is_positive (x : R) : bool :=
  if Rlt_dec 0 x then true else false.

(** The sum of the specification: [f c * log2 (f c)] summed over the
    classes [c < numClasses] with [f c > 0]. *)
Definition entropy_sum (numClasses : nat) (f : nat -> R) : R :=
  Rsum (map (fun c => f c * Rlog2 (f c))
            (filter (fun c => is_positive (f c)) (seq 0 numClasses))).

(** One term of the sum, with the convention that a frequency that is not
    positive contributes nothing. *)
Definition plogp (x : R) : R :=
  if Rlt_dec 0 x then x * Rlog2 x else 0.

(** The same sum, term by term over all classes. *)
Definition entropy (numClasses : nat) (f : nat -> R) : R :=
  Rsum (map (fun c => plogp (f c)) (seq 0 numClasses)).

(** The label vector in which point [i] of [labels] stands
    [multiplicities[i]] times. *)
Definition replicate_points (labels multiplicities : list nat) : list nat :=
  flat_map (fun p => repeat (fst p) (snd p)) (combine labels multiplicities).

(** ** The sum of the specification in the arithmetic of the program *)

Section RoundedSum.

Variable A : arithmetic.

(** The weights of the points of class [c], in the order of the points. *)
Definition class_weights (c : nat) (labels : list nat)
    (weights : list (num A)) : list (num A) :=
  map snd (filter (fun p => Nat.eqb (fst p) c) (combine labels weights)).

(** The sum of [xs] as a program accumulates it: from [0.0], one [+=] per
    element, in order. *)
Definition running_sum (xs : list (num A)) : num A :=
  fold_left (num_add A) xs (num_zero A).

(** The count of class [c]: the running sum of the weights of its points,
    or of one [1.0] per point of the class in unweighted mode. *)
Definition class_count (UseWeights : bool) (labels : list nat)
    (weights : list (num A)) (c : nat) : num A :=
  if UseWeights then running_sum (class_weights c labels weights)
  else running_sum (repeat (num_one A) (count c labels)).

(** What the counts are divided by: the running sum of all the weights, or
    the number of points in unweighted mode. *)
Definition denominator (UseWeights : bool) (labels : list nat)
    (weights : list (num A)) : num A :=
  if UseWeights then running_sum weights
  else num_of_nat A (length labels).

(** The frequency [f_c], a quotient in the arithmetic of the program. *)
Definition rounded_frequency (UseWeights : bool) (labels : list nat)
    (weights : list (num A)) (c : nat) : num A :=
  num_div A (class_count UseWeights labels weights c)
            (denominator UseWeights labels weights).

(** The running sum of [f c * log2 (f c)] over the classes
    [c < numClasses] with [f c > 0.0], in increasing order. *)
Definition rounded_entropy_sum (numClasses : nat) (f : nat -> num A)
    : num A :=
  running_sum
    (map (fun c => num_mul A (f c) (num_log2 A (f c)))
         (filter (fun c => num_gtb A (f c) (num_zero A))
                 (seq 0 numClasses))).

(** The value of the specification: the sum above, and [0.0] when the
    total weight is [0.0]. *)
Definition rounded_value (UseWeights : bool) (labels : list nat)
    (numClasses : nat) (weights : list (num A)) : num A :=
  if andb UseWeights
          (num_eqb A (denominator true labels weights) (num_zero A))
  then num_zero A
  else rounded_entropy_sum numClasses
         (rounded_frequency UseWeights labels weights).

End RoundedSum.

(** ** The loops, by recursion on the vectors they traverse *)

(** The loop of lines 76-77 over the labels still to be read. *)
Fixpoint tally_all (labels : list nat) (counts : list double)
    : option (list double) :=
  match labels with
  | [] => Some counts
  | l :: labels' => counts' <- add_at counts l one ;; tally_all labels' counts'
  end.

(** The loop of lines 55-61 over the labels and weights still to be read. *)
Fixpoint tally_weighted_all (labels : list nat) (weights : list double)
    (st : list double * double) : option (list double * double) :=
  match labels with
  | [] => Some st
  | l :: labels' =>
      match weights with
      | [] => None
      | w :: weights' =>
          counts' <- add_at (fst st) l w ;;
          tally_weighted_all labels' weights' (counts', (snd st + w)%D)
      end
  end.

(** One step of the loops of lines 67-72 and 79-84 on the count [c]. *)
Definition gain_step (denom : double) (gain c : double) : double :=
  let f := (c / denom)%D in
  if (f >? zero)%D then (gain + f * log2 f)%D else gain.

(** ** Facts about doubles *)

Lemma Rsign_pos (r : R) : 0 < r -> Rsign r = Gt.
Proof.
  intros H. unfold Rsign.
  destruct (total_order_T 0 r) as [[Hlt | Heq] | Hgt]; trivial; lra.
Qed.

Lemma Rsign_zero : Rsign 0 = Eq.
Proof.
  unfold Rsign.
  destruct (total_order_T 0 0) as [[Hlt | Heq] | Hgt]; trivial; lra.
Qed.

Lemma Rsign_neg (r : R) : r < 0 -> Rsign r = Lt.
Proof.
  intros H. unfold Rsign.
  destruct (total_order_T 0 r) as [[Hlt | Heq] | Hgt]; trivial; lra.
Qed.

Lemma Rsign_cases (r : R) :
  (0 < r /\ Rsign r = Gt) \/ (r = 0 /\ Rsign r = Eq) \/ (r < 0 /\ Rsign r = Lt).
Proof.
  destruct (Rtotal_order 0 r) as [H | [H | H]].
  - left. auto using Rsign_pos.
  - right. left. subst r. auto using Rsign_zero.
  - right. right. auto using Rsign_neg.
Qed.

Lemma add_zero_r (x : double) : (x + zero)%D = x.
Proof.
  destruct x; simpl; trivial. f_equal. lra.
Qed.

Lemma is_positive_true (x : R) : 0 < x -> is_positive x = true.
Proof. intros H. unfold is_positive. destruct (Rlt_dec 0 x); trivial. lra. Qed.

Lemma is_positive_false (x : R) : x <= 0 -> is_positive x = false.
Proof. intros H. unfold is_positive. destruct (Rlt_dec 0 x); trivial. lra. Qed.

Lemma gtb_Fin_zero (r : R) : (Fin r >? zero)%D = is_positive r.
Proof. reflexivity. Qed.

Lemma eqb_Fin_zero_true (r : R) : r = 0 -> (Fin r ==? zero)%D = true.
Proof. intros H. simpl. destruct (Req_dec_T r 0); trivial. contradiction. Qed.

Lemma eqb_Fin_zero_false (r : R) : r <> 0 -> (Fin r ==? zero)%D = false.
Proof. intros H. simpl. destruct (Req_dec_T r 0); trivial. contradiction. Qed.

Lemma div_Fin (a d : R) : d <> 0 -> (Fin a / Fin d)%D = Fin (a / d).
Proof.
  intros H. simpl.
  destruct (Rsign_cases d) as [[_ E] | [[E _] | [_ E]]];
    try rewrite E; trivial; contradiction.
Qed.

(** A count of zero never passes the guard [f > 0.0], whatever the
    denominator is. *)
Lemma zero_div_not_positive (d : double) : ((zero / d) >? zero)%D = false.
Proof.
  destruct d as [b | | |]; simpl; trivial;
    try (apply is_positive_false; lra).
  destruct (Rsign_cases b) as [[Hb E] | [[Hb E] | [Hb E]]]; rewrite E.
  - apply is_positive_false. unfold Rdiv. lra.
  - rewrite Rsign_zero. reflexivity.
  - apply is_positive_false. unfold Rdiv. lra.
Qed.

(** What passes the guard has a logarithm that is neither NaN nor minus
    infinity, and its product with that logarithm is not NaN. *)
Lemma guard_log2 (f : double) :
  (f >? zero)%D = true ->
  log2 f <> NaN /\ log2 f <> NInf /\ (f * log2 f)%D <> NaN.
Proof.
  destruct f as [r | | |]; simpl; try discriminate.
  - destruct (Rlt_dec 0 r) as [Hr | Hr]; try discriminate. intros _.
    rewrite (Rsign_pos r Hr). repeat split; discriminate.
  - intros _. repeat split; discriminate.
Qed.

Lemma plogp_pos (x : R) : 0 < x -> plogp x = x * Rlog2 x.
Proof. intros H. unfold plogp. destruct (Rlt_dec 0 x); trivial. lra. Qed.

Lemma plogp_nonpos (x : R) : x <= 0 -> plogp x = 0.
Proof. intros H. unfold plogp. destruct (Rlt_dec 0 x); trivial. lra. Qed.

Lemma gain_step_Fin (d a c : R) :
  d <> 0 -> gain_step (Fin d) (Fin a) (Fin c) = Fin (a + plogp (c / d)).
Proof.
  intros Hd. unfold gain_step. rewrite (div_Fin c d Hd), gtb_Fin_zero.
  unfold is_positive, plogp.
  destruct (Rlt_dec 0 (c / d)) as [Hf | Hf].
  - simpl. rewrite (Rsign_pos _ Hf). reflexivity.
  - f_equal. lra.
Qed.

Lemma gain_step_zero (d gain : double) : gain_step d gain zero = gain.
Proof. unfold gain_step. rewrite zero_div_not_positive. reflexivity. Qed.

(** ** The loops *)

Lemma for_from_add {St : Type} (body : nat -> St -> option St) (n m : nat) :
  forall (start : nat) (s : St),
    for_from start (n + m) body s =
    (s' <- for_from start n body s ;; for_from (start + n) m body s').
Proof.
  induction n as [| n IH]; intros start s; simpl.
  - rewrite Nat.add_0_r. reflexivity.
  - destruct (body start s) as [s' |]; simpl; trivial.
    rewrite IH. rewrite Nat.add_succ_r. reflexivity.
Qed.

Lemma for_from_ext {St : Type} (body body' : nat -> St -> option St)
    (n : nat) :
  forall (start : nat) (s : St),
    (forall i t, (start <= i < start + n)%nat -> body i t = body' i t) ->
    for_from start n body s = for_from start n body' s.
Proof.
  induction n as [| n IH]; intros start s H; simpl; trivial.
  rewrite (H start s) by lia.
  destruct (body' start s) as [s' |]; simpl; trivial.
  apply IH. intros i t Hi. apply H. lia.
Qed.

Lemma nth_error_middle {A : Type} (pre : list A) (x : A) (rest : list A) :
  nth_error (pre ++ x :: rest) (length pre) = Some x.
Proof.
  rewrite nth_error_app2 by lia. rewrite Nat.sub_diag. reflexivity.
Qed.

Lemma app_cons_assoc {A : Type} (pre : list A) (x : A) (rest : list A) :
  pre ++ x :: rest = (pre ++ [x]) ++ rest.
Proof. rewrite <- app_assoc. reflexivity. Qed.

Lemma length_snoc {A : Type} (pre : list A) (x : A) :
  length (pre ++ [x]) = S (length pre).
Proof. rewrite length_app. simpl. lia. Qed.

(** The unweighted counting loop reads the labels one after the other. *)
Lemma tally_loop (rest : list nat) :
  forall (pre : list nat) (counts : list double),
    for_from (length pre) (length rest) (tally (pre ++ rest)) counts =
    tally_all rest counts.
Proof.
  induction rest as [| l rest IH]; intros pre counts; simpl; trivial.
  unfold tally at 1. rewrite nth_error_middle. simpl.
  destruct (add_at counts l one) as [counts' |]; simpl; trivial.
  rewrite (app_cons_assoc pre l rest), <- (length_snoc pre l). apply IH.
Qed.

Lemma skipn_S_tl {A : Type} (k : nat) :
  forall (xs : list A), skipn (S k) xs = tl (skipn k xs).
Proof.
  induction k as [| k IH]; intros xs.
  - destruct xs; reflexivity.
  - destruct xs as [| x xs]; trivial.
    change (skipn (S (S k)) (x :: xs)) with (skipn (S k) xs).
    rewrite IH. reflexivity.
Qed.

(** The weighted counting loop reads labels and weights in step. *)
Lemma tally_weighted_loop (rest : list nat) :
  forall (pre : list nat) (weights : list double)
         (st : list double * double),
    for_from (length pre) (length rest)
             (tally_weighted (pre ++ rest) weights) st =
    tally_weighted_all rest (skipn (length pre) weights) st.
Proof.
  induction rest as [| l rest IH]; intros pre weights st; simpl; trivial.
  unfold tally_weighted at 1. destruct st as [counts acc].
  rewrite nth_error_middle, <- hd_error_skipn. simpl.
  destruct (skipn (length pre) weights) as [| w ws] eqn:E; simpl; trivial.
  destruct (add_at counts l w) as [counts' |]; simpl; trivial.
  rewrite (app_cons_assoc pre l rest), <- (length_snoc pre l), IH.
  rewrite length_snoc, skipn_S_tl, E. reflexivity.
Qed.

(** The summing loop folds [gain_step] over the counts. *)
Lemma accumulate_loop (denom : double) (rest : list double) :
  forall (pre : list double) (gain : double),
    for_from (length pre) (length rest) (accumulate (pre ++ rest) denom) gain =
    Some (fold_left (gain_step denom) rest gain).
Proof.
  induction rest as [| c rest IH]; intros pre gain; simpl; trivial.
  unfold accumulate at 1. rewrite nth_error_middle. simpl.
  fold (gain_step denom gain c).
  assert (E : (if (c / denom >? zero)%D
               then Some (gain + c / denom * log2 (c / denom))%D
               else Some gain) = Some (gain_step denom gain c)).
  { unfold gain_step. destruct (c / denom >? zero)%D; reflexivity. }
  rewrite E. simpl.
  rewrite (app_cons_assoc pre c rest), <- (length_snoc pre c). apply IH.
Qed.

Lemma tally_for_loop (labels : list nat) (counts : list double) :
  for_loop (length labels) (tally labels) counts = tally_all labels counts.
Proof. exact (tally_loop labels [] counts). Qed.

Lemma tally_weighted_for_loop (labels : list nat) (weights : list double)
    (st : list double * double) :
  for_loop (length labels) (tally_weighted labels weights) st =
  tally_weighted_all labels weights st.
Proof. exact (tally_weighted_loop labels [] weights st). Qed.

Lemma accumulate_for_loop (counts : list double) (denom gain : double) :
  for_loop (length counts) (accumulate counts denom) gain =
  Some (fold_left (gain_step denom) counts gain).
Proof. exact (accumulate_loop denom counts [] gain). Qed.

Lemma store_length (v : list double) :
  forall (k : nat) (x : double), length (store v k x) = length v.
Proof.
  induction v as [| y v IH]; intros k x; simpl; trivial.
  destruct k; simpl; auto.
Qed.

Lemma add_at_length (v v' : list double) (k : nat) (w : double) :
  add_at v k w = Some v' -> length v' = length v.
Proof.
  unfold add_at. destruct (nth_error v k); simpl; try discriminate.
  intros H. injection H as <-. apply store_length.
Qed.

Lemma add_at_None (v : list double) (k : nat) (w : double) :
  (length v <= k)%nat -> add_at v k w = None.
Proof.
  intros H. unfold add_at.
  apply nth_error_None in H. rewrite H. reflexivity.
Qed.

Lemma tally_all_length (labels : list nat) :
  forall (v v' : list double),
    tally_all labels v = Some v' -> length v' = length v.
Proof.
  induction labels as [| l labels IH]; intros v v'; simpl.
  - intros H. injection H as <-. reflexivity.
  - destruct (add_at v l one) as [v1 |] eqn:E; simpl; try discriminate.
    intros H. rewrite (IH _ _ H). eapply add_at_length; eauto.
Qed.

Lemma tally_weighted_all_length (labels : list nat) :
  forall (weights : list double) (st st' : list double * double),
    tally_weighted_all labels weights st = Some st' ->
    length (fst st') = length (fst st).
Proof.
  induction labels as [| l labels IH]; intros weights st st'; simpl.
  - intros H. injection H as <-. reflexivity.
  - destruct weights as [| w weights]; try discriminate.
    destruct (add_at (fst st) l w) as [v1 |] eqn:E; simpl; try discriminate.
    intros H. rewrite (IH _ _ _ H). simpl. eapply add_at_length; eauto.
Qed.

Lemma zeros_length (n : nat) : length (zeros n) = n.
Proof. apply repeat_length. Qed.

(** [Evaluate] with its loops read as recursions over the vectors. *)
Lemma Evaluate_unweighted (labels : list nat) (numClasses : nat)
    (weights : list double) :
  labels <> [] ->
  Evaluate false labels numClasses weights =
  (counts <- tally_all labels (zeros numClasses) ;;
   Some (fold_left (gain_step (of_nat (length labels))) counts zero)).
Proof.
  intros Hne. unfold Evaluate.
  destruct labels as [| l labels]; [contradiction |].
  change (length (l :: labels) =? 0)%nat with false. cbv iota.
  rewrite tally_for_loop.
  destruct (tally_all (l :: labels) (zeros numClasses)) as [counts |] eqn:E;
    simpl bind; trivial.
  apply tally_all_length in E. rewrite zeros_length in E. rewrite <- E.
  apply accumulate_for_loop.
Qed.

Lemma Evaluate_weighted (labels : list nat) (numClasses : nat)
    (weights : list double) :
  labels <> [] ->
  Evaluate true labels numClasses weights =
  (st <- tally_weighted_all labels weights (zeros numClasses, zero) ;;
   if (snd st ==? zero)%D then Some zero
   else Some (fold_left (gain_step (snd st)) (fst st) zero)).
Proof.
  intros Hne. unfold Evaluate.
  destruct labels as [| l labels]; [contradiction |].
  change (length (l :: labels) =? 0)%nat with false. cbv iota.
  rewrite tally_weighted_for_loop.
  destruct (tally_weighted_all (l :: labels) weights (zeros numClasses, zero))
    as [[counts acc] |] eqn:E; simpl bind; trivial.
  apply tally_weighted_all_length in E. simpl in E.
  rewrite zeros_length in E. simpl fst; simpl snd.
  destruct (acc ==? zero)%D; trivial.
  rewrite <- E. apply accumulate_for_loop.
Qed.

(** ** The counts the tallying loops build *)

Lemma store_map_seq (F : nat -> double) (x : double) (n : nat) :
  forall (s k : nat),
    store (map F (seq s n)) k x =
    map (fun c => if Nat.eqb c (s + k) then x else F c) (seq s n).
Proof.
  induction n as [| n IH]; intros s k; simpl; trivial.
  destruct k as [| k]; simpl.
  - rewrite Nat.add_0_r, Nat.eqb_refl. f_equal.
    apply map_ext_in. intros c Hc. apply in_seq in Hc.
    destruct (Nat.eqb_spec c s); trivial. lia.
  - destruct (Nat.eqb_spec s (s + S k)); [lia |]. f_equal.
    rewrite IH. apply map_ext. intros c.
    replace (S s + k)%nat with (s + S k)%nat by lia. reflexivity.
Qed.

Lemma nth_error_map_seq {A : Type} (F : nat -> A) (n k : nat) :
  (k < n)%nat -> nth_error (map F (seq 0 n)) k = Some (F k).
Proof.
  intros H. rewrite nth_error_map, nth_error_seq.
  destruct (Nat.ltb_spec k n); [reflexivity | lia].
Qed.

Lemma add_at_map_seq (F : nat -> double) (n k : nat) (w : double) :
  (k < n)%nat ->
  add_at (map F (seq 0 n)) k w =
  Some (map (fun c => if Nat.eqb k c then (F c + w)%D else F c) (seq 0 n)).
Proof.
  intros H. unfold add_at. rewrite (nth_error_map_seq F n k H). simpl.
  rewrite store_map_seq. f_equal. apply map_ext. intros c. simpl.
  rewrite (Nat.eqb_sym k c).
  destruct (Nat.eqb_spec c k); subst; reflexivity.
Qed.

Lemma zeros_map_seq (n : nat) : zeros n = map (fun _ => Fin 0) (seq 0 n).
Proof.
  unfold zeros. generalize 0%nat.
  induction n as [| n IH]; intros s; simpl; trivial.
  f_equal. apply IH.
Qed.

Lemma count_cons (c l : nat) (labels : list nat) :
  INR (count c (l :: labels)) =
  (if Nat.eqb l c then 1 else 0) + INR (count c labels).
Proof.
  unfold count. simpl.
  destruct (Nat.eq_dec l c) as [E | E].
  - subst. rewrite Nat.eqb_refl, S_INR. lra.
  - apply Nat.eqb_neq in E. rewrite E. lra.
Qed.

(** The unweighted loop leaves in cell [c] what was there plus the number of
    points of class [c]. *)
Lemma tally_all_spec (numClasses : nat) (labels : list nat) :
  forall (g : nat -> R),
    in_range numClasses labels ->
    tally_all labels (map (fun c => Fin (g c)) (seq 0 numClasses)) =
    Some (map (fun c => Fin (g c + INR (count c labels))) (seq 0 numClasses)).
Proof.
  induction labels as [| l labels IH]; intros g Hr.
  - simpl. f_equal. apply map_ext. intros c. f_equal.
    unfold count. simpl. lra.
  - inversion Hr as [| ? ? Hl Hr']; subst.
    cbn [tally_all]. rewrite add_at_map_seq by assumption. simpl bind.
    rewrite (map_ext _ (fun c => Fin (g c + (if Nat.eqb l c then 1 else 0)))).
    + rewrite IH by assumption. f_equal. apply map_ext. intros c.
      f_equal. rewrite count_cons. lra.
    + intros c. destruct (Nat.eqb l c); simpl; f_equal; lra.
Qed.

Lemma nonneg_finite (w : double) : nonneg w -> is_finite w.
Proof. destruct w; simpl; trivial. Qed.

Lemma finite_value (w : double) : is_finite w -> w = Fin (value w).
Proof. destruct w; simpl; intros H; trivial; contradiction. Qed.

(** The weighted loop leaves in cell [c] what was there plus the weights of
    the points of class [c], and adds all the weights to the accumulator. *)
Lemma tally_weighted_all_spec (numClasses : nat) (labels : list nat) :
  forall (weights : list double) (g : nat -> R) (a : R),
    in_range numClasses labels ->
    length weights = length labels ->
    Forall is_finite weights ->
    tally_weighted_all labels weights
      (map (fun c => Fin (g c)) (seq 0 numClasses), Fin a) =
    Some (map (fun c => Fin (g c + wcount c labels weights))
              (seq 0 numClasses),
          Fin (a + total weights)).
Proof.
  induction labels as [| l labels IH]; intros weights g a Hr Hlen Hfin.
  - destruct weights; try discriminate. simpl. f_equal. f_equal.
    + apply map_ext. intros c. f_equal. lra.
    + f_equal. unfold total. simpl. lra.
  - destruct weights as [| w weights]; try discriminate.
    inversion Hr as [| ? ? Hl Hr']; subst.
    inversion Hfin as [| ? ? Hw Hfin']; subst.
    injection Hlen as Hlen.
    rewrite (finite_value w Hw).
    cbn [tally_weighted_all fst snd].
    rewrite add_at_map_seq by assumption. simpl bind.
    rewrite (map_ext _ (fun c =>
               Fin (g c + (if Nat.eqb l c then value w else 0)))).
    + simpl add. rewrite IH by assumption. f_equal. f_equal.
      * apply map_ext. intros c. f_equal. simpl. lra.
      * f_equal. unfold total. simpl. lra.
    + intros c. destruct (Nat.eqb l c); simpl; f_equal; lra.
Qed.

(** ** The value the summing loop returns *)

Lemma fold_gain_step_Fin (d : R) (h : nat -> R) (cs : list nat) :
  d <> 0 ->
  forall (a : R),
    fold_left (gain_step (Fin d)) (map (fun c => Fin (h c)) cs) (Fin a) =
    Fin (a + Rsum (map (fun c => plogp (h c / d)) cs)).
Proof.
  intros Hd. induction cs as [| c cs IH]; intros a; simpl.
  - f_equal. lra.
  - rewrite gain_step_Fin by assumption. rewrite IH. f_equal. lra.
Qed.

Lemma fold_gain_step_zeros (d : double) (m : nat) (gain : double) :
  fold_left (gain_step d) (zeros m) gain = gain.
Proof.
  induction m as [| m IH]; simpl; trivial.
  rewrite gain_step_zero. exact IH.
Qed.

(** The sum of the specification is the term-by-term sum. *)
Lemma entropy_sum_entropy (numClasses : nat) (f : nat -> R) :
  entropy_sum numClasses f = entropy numClasses f.
Proof.
  unfold entropy_sum, entropy. generalize 0%nat.
  induction numClasses as [| n IH]; intros s; simpl; trivial.
  unfold is_positive at 1, plogp at 1.
  destruct (Rlt_dec 0 (f s)); simpl; rewrite IH; lra.
Qed.

Lemma entropy_ext (numClasses : nat) (f g : nat -> R) :
  (forall c, (c < numClasses)%nat -> f c = g c) ->
  entropy numClasses f = entropy numClasses g.
Proof.
  intros H. unfold entropy. f_equal. apply map_ext_in.
  intros c Hc. apply in_seq in Hc. rewrite H by lia. reflexivity.
Qed.

Lemma INR_length_nonzero {A : Type} (xs : list A) :
  xs <> [] -> INR (length xs) <> 0.
Proof.
  intros H. destruct xs as [| x xs]; [contradiction |].
  apply not_0_INR. simpl. lia.
Qed.

(** Unweighted mode on valid input returns the entropy sum of the observed
    frequencies. *)
Lemma Evaluate_unweighted_value (labels : list nat) (numClasses : nat)
    (weights : list double) :
  labels <> [] ->
  in_range numClasses labels ->
  Evaluate false labels numClasses weights =
  Some (Fin (entropy numClasses (freq labels))).
Proof.
  intros Hne Hr. rewrite Evaluate_unweighted by assumption.
  rewrite zeros_map_seq, tally_all_spec by assumption. simpl bind.
  unfold of_nat, zero.
  rewrite (fold_gain_step_Fin (INR (length labels))
             (fun c => 0 + INR (count c labels)))
    by (apply INR_length_nonzero; assumption).
  f_equal. f_equal. rewrite Rplus_0_l. apply entropy_ext.
  intros c _. unfold freq. rewrite Rplus_0_l. reflexivity.
Qed.

Lemma Forall_nonneg_finite (weights : list double) :
  Forall nonneg weights -> Forall is_finite weights.
Proof. apply Forall_impl. exact nonneg_finite. Qed.

(** Weighted mode on valid input: the accumulators after the first loop. *)
Lemma Evaluate_weighted_tally (labels : list nat) (numClasses : nat)
    (weights : list double) :
  in_range numClasses labels ->
  length weights = length labels ->
  Forall is_finite weights ->
  tally_weighted_all labels weights (zeros numClasses, zero) =
  Some (map (fun c => Fin (wcount c labels weights)) (seq 0 numClasses),
        Fin (total weights)).
Proof.
  intros Hr Hlen Hfin. unfold zero.
  rewrite zeros_map_seq, tally_weighted_all_spec by assumption.
  f_equal. f_equal.
  - apply map_ext. intros c. f_equal. lra.
  - f_equal. lra.
Qed.

(** Weighted mode on valid input with a total weight that is not zero
    returns the entropy sum of the weighted frequency shares. *)
Lemma Evaluate_weighted_value (labels : list nat) (numClasses : nat)
    (weights : list double) :
  labels <> [] ->
  in_range numClasses labels ->
  length weights = length labels ->
  Forall is_finite weights ->
  total weights <> 0 ->
  Evaluate true labels numClasses weights =
  Some (Fin (entropy numClasses (wfreq labels weights))).
Proof.
  intros Hne Hr Hlen Hfin Htot. rewrite Evaluate_weighted by assumption.
  rewrite Evaluate_weighted_tally by assumption. cbn [bind fst snd]. rewrite eqb_Fin_zero_false by assumption.
  unfold zero.
  rewrite (fold_gain_step_Fin (total weights)
             (fun c => wcount c labels weights)) by assumption.
  f_equal. f_equal. rewrite Rplus_0_l. reflexivity.
Qed.

(** Weighted mode on valid input with total weight zero returns zero. *)
Lemma Evaluate_weighted_zero (labels : list nat) (numClasses : nat)
    (weights : list double) :
  in_range numClasses labels ->
  length weights = length labels ->
  Forall is_finite weights ->
  total weights = 0 ->
  Evaluate true labels numClasses weights = Some zero.
Proof.
  intros Hr Hlen Hfin Htot.
  destruct labels as [| l labels]; [reflexivity |].
  rewrite Evaluate_weighted by discriminate.
  rewrite Evaluate_weighted_tally by assumption. cbn [bind fst snd]. rewrite eqb_Fin_zero_true by assumption. reflexivity.
Qed.

(** ** Sums of reals *)

Lemma Rsum_map_plus {A : Type} (g h : A -> R) (xs : list A) :
  Rsum (map (fun x => g x + h x) xs) = Rsum (map g xs) + Rsum (map h xs).
Proof. induction xs as [| x xs IH]; simpl; lra. Qed.

Lemma Rsum_map_scale {A : Type} (k : R) (g : A -> R) (xs : list A) :
  Rsum (map (fun x => g x * k) xs) = Rsum (map g xs) * k.
Proof. induction xs as [| x xs IH]; simpl; [| rewrite IH]; lra. Qed.

Lemma Rsum_map_const {A : Type} (k : R) (xs : list A) :
  Rsum (map (fun _ => k) xs) = INR (length xs) * k.
Proof.
  induction xs as [| x xs IH].
  - simpl. lra.
  - change (length (x :: xs)) with (S (length xs)). rewrite S_INR.
    simpl. rewrite IH. lra.
Qed.

Lemma Rsum_map_le {A : Type} (g h : A -> R) (xs : list A) :
  (forall x, In x xs -> g x <= h x) ->
  Rsum (map g xs) <= Rsum (map h xs).
Proof.
  induction xs as [| x xs IH]; intros H; simpl; [lra |].
  assert (g x <= h x) by (apply H; left; reflexivity).
  assert (Rsum (map g xs) <= Rsum (map h xs))
    by (apply IH; intros y Hy; apply H; right; exact Hy).
  lra.
Qed.

Lemma Rsum_map_nonneg {A : Type} (g : A -> R) (xs : list A) :
  (forall x, In x xs -> 0 <= g x) -> 0 <= Rsum (map g xs).
Proof.
  intros H. induction xs as [| x xs IH]; simpl; [lra |].
  assert (0 <= g x) by (apply H; left; reflexivity).
  assert (0 <= Rsum (map g xs))
    by (apply IH; intros y Hy; apply H; right; exact Hy).
  lra.
Qed.

(** A term of a sum of non-negative reals is at most the sum. *)
Lemma Rsum_map_term_le {A : Type} (g : A -> R) (xs : list A) (x : A) :
  (forall y, In y xs -> 0 <= g y) -> In x xs -> g x <= Rsum (map g xs).
Proof.
  induction xs as [| y xs IH]; intros Hpos Hin; [contradiction |].
  simpl.
  assert (0 <= g y) by (apply Hpos; left; reflexivity).
  assert (0 <= Rsum (map g xs))
    by (apply Rsum_map_nonneg; intros z Hz; apply Hpos; right; exact Hz).
  destruct Hin as [-> | Hin]; [lra |].
  assert (g x <= Rsum (map g xs))
    by (apply IH; trivial; intros z Hz; apply Hpos; right; exact Hz).
  lra.
Qed.

(** Two distinct terms of a sum of non-negative reals add up to at most the
    sum. *)
Lemma Rsum_map_two_terms_le (g : nat -> R) (xs : list nat) (x y : nat) :
  (forall z, In z xs -> 0 <= g z) -> In x xs -> In y xs -> x <> y ->
  g x + g y <= Rsum (map g xs).
Proof.
  induction xs as [| z xs IH]; intros Hpos Hx Hy Hne; [contradiction |].
  simpl.
  assert (Hpos' : forall t, In t xs -> 0 <= g t)
    by (intros t Ht; apply Hpos; right; exact Ht).
  assert (0 <= g z) by (apply Hpos; left; reflexivity).
  destruct Hx as [-> | Hx], Hy as [-> | Hy].
  - contradiction.
  - pose proof (Rsum_map_term_le g xs y Hpos' Hy). lra.
  - pose proof (Rsum_map_term_le g xs x Hpos' Hx). lra.
  - pose proof (IH Hpos' Hx Hy Hne). lra.
Qed.

(** A sum of terms that are at most zero is zero only if every term is. *)
Lemma Rsum_map_nonpos_zero {A : Type} (g : A -> R) (xs : list A) :
  (forall x, In x xs -> g x <= 0) ->
  Rsum (map g xs) = 0 ->
  forall x, In x xs -> g x = 0.
Proof.
  induction xs as [| y xs IH]; intros Hle Hsum x Hin; [contradiction |].
  simpl in Hsum.
  assert (Hy : g y <= 0) by (apply Hle; left; reflexivity).
  assert (Hle' : forall z, In z xs -> g z <= 0)
    by (intros z Hz; apply Hle; right; exact Hz).
  pose proof (Rsum_map_le g (fun _ => 0) xs Hle') as Hs.
  rewrite Rsum_map_const in Hs.
  destruct Hin as [<- | Hin]; [lra |].
  apply IH; trivial. lra.
Qed.

(** The sum of an indicator over a range that holds its index. *)
Lemma Rsum_indicator (l : nat) (v : R) (n : nat) :
  forall (s : nat),
    (s <= l < s + n)%nat ->
    Rsum (map (fun c => if Nat.eqb l c then v else 0) (seq s n)) = v.
Proof.
  induction n as [| n IH]; intros s H; [lia |].
  simpl. destruct (Nat.eqb_spec l s) as [E | E].
  - subst s.
    rewrite (map_ext_in _ (fun _ => 0)).
    + rewrite Rsum_map_const. lra.
    + intros c Hc. apply in_seq in Hc.
      destruct (Nat.eqb_spec l c); trivial. lia.
  - rewrite IH by lia. lra.
Qed.

(** The per-class counts add up to the number of points. *)
Lemma Rsum_count (numClasses : nat) (labels : list nat) :
  in_range numClasses labels ->
  Rsum (map (fun c => INR (count c labels)) (seq 0 numClasses)) =
  INR (length labels).
Proof.
  induction labels as [| l labels IH]; intros Hr.
  - unfold count. simpl count_occ. change (INR 0) with 0.
    rewrite Rsum_map_const. simpl. lra.
  - inversion Hr as [| ? ? Hl Hr']; subst.
    rewrite (map_ext _ (fun c => (if Nat.eqb l c then 1 else 0)
                                 + INR (count c labels)))
      by (intros c; apply count_cons).
    rewrite Rsum_map_plus, Rsum_indicator, IH by (trivial; lia).
    change (length (l :: labels)) with (S (length labels)).
    rewrite S_INR. lra.
Qed.

(** The per-class weighted counts add up to the total weight. *)
Lemma Rsum_wcount (numClasses : nat) (labels : list nat) :
  forall (weights : list double),
    in_range numClasses labels ->
    length weights = length labels ->
    Rsum (map (fun c => wcount c labels weights) (seq 0 numClasses)) =
    total weights.
Proof.
  induction labels as [| l labels IH]; intros weights Hr Hlen.
  - destruct weights; try discriminate. simpl wcount.
    rewrite Rsum_map_const. unfold total. simpl. lra.
  - destruct weights as [| w weights]; try discriminate.
    inversion Hr as [| ? ? Hl Hr']; subst. injection Hlen as Hlen.
    simpl wcount.
    rewrite Rsum_map_plus, Rsum_indicator, IH by (trivial; lia).
    unfold total. simpl. reflexivity.
Qed.

Lemma wcount_nonneg (c : nat) (labels : list nat) :
  forall (weights : list double),
    Forall nonneg weights -> 0 <= wcount c labels weights.
Proof.
  induction labels as [| l labels IH]; intros weights Hw; simpl; [lra |].
  destruct weights as [| w weights]; [lra |].
  inversion Hw as [| ? ? Hw1 Hw2]; subst.
  pose proof (IH weights Hw2).
  destruct (Nat.eqb l c); [| lra].
  destruct w; simpl in *; try contradiction. lra.
Qed.

Lemma total_nonneg (weights : list double) :
  Forall nonneg weights -> 0 <= total weights.
Proof.
  intros Hw. unfold total. apply Rsum_map_nonneg.
  intros w Hin. rewrite Forall_forall in Hw. specialize (Hw w Hin).
  destruct w; simpl in *; try contradiction. lra.
Qed.

(** ** Logarithms and the bounds of the entropy sum *)

Lemma ln_2_pos : 0 < ln 2.
Proof. pose proof ln_lt_2. lra. Qed.

Lemma ln_le_minus_1 (x : R) : 0 < x -> ln x <= x - 1.
Proof.
  intros Hx. pose proof (exp_ineq1_le (ln x)) as H.
  rewrite (exp_ln x Hx) in H. lra.
Qed.

Lemma Rlog2_1 : Rlog2 1 = 0.
Proof. unfold Rlog2. rewrite ln_1. unfold Rdiv. lra. Qed.

Lemma Rlog2_2 : Rlog2 2 = 1.
Proof. unfold Rlog2. pose proof ln_2_pos. field. lra. Qed.


Lemma Rlog2_inv (x : R) : 0 < x -> Rlog2 (/ x) = - Rlog2 x.
Proof.
  intros Hx. unfold Rlog2. rewrite ln_Rinv by assumption.
  pose proof ln_2_pos. field. lra.
Qed.


(** A term of the sum is at most zero for a frequency of at most one. *)
Lemma plogp_le_0 (x : R) : x <= 1 -> plogp x <= 0.
Proof.
  intros Hx. unfold plogp. destruct (Rlt_dec 0 x) as [Hp | Hp]; [| lra].
  pose proof (ln_le_minus_1 x Hp) as Hln. pose proof ln_2_pos as H2.
  unfold Rlog2.
  assert (0 <= x * (- ln x) * / ln 2).
  { apply Rmult_le_pos.
    - apply Rmult_le_pos; lra.
    - left. apply Rinv_0_lt_compat. exact H2. }
  unfold Rdiv. lra.
Qed.

(** A term of the sum is zero only for the frequencies zero and one. *)
Lemma plogp_eq_0 (x : R) : 0 < x -> plogp x = 0 -> x = 1.
Proof.
  intros Hp H0. rewrite plogp_pos in H0 by assumption.
  pose proof ln_2_pos as H2. unfold Rlog2, Rdiv in H0.
  apply Rmult_integral in H0. destruct H0 as [H0 | H0]; [lra |].
  apply Rmult_integral in H0. destruct H0 as [H0 | H0].
  - apply ln_inv; trivial; try lra. rewrite ln_1. exact H0.
  - pose proof (Rinv_0_lt_compat _ H2). lra.
Qed.

Lemma plogp_1 : plogp 1 = 0.
Proof. rewrite plogp_pos by lra. rewrite Rlog2_1. lra. Qed.

Lemma plogp_0 : plogp 0 = 0.
Proof. apply plogp_nonpos. lra. Qed.


(** Entropy sums of a distribution [f] over [numClasses] classes. *)
Section Distribution.

Variable numClasses : nat.
Variable f : nat -> R.
Hypothesis f_nonneg : forall c, (c < numClasses)%nat -> 0 <= f c.
Hypothesis f_sums_to_1 : Rsum (map f (seq 0 numClasses)) = 1.

Lemma distribution_nonneg_in (c : nat) :
  In c (seq 0 numClasses) -> 0 <= f c.
Proof. intros Hc. apply in_seq in Hc. apply f_nonneg. lia. Qed.

Lemma distribution_le_1 (c : nat) : (c < numClasses)%nat -> f c <= 1.
Proof.
  intros Hc. rewrite <- f_sums_to_1.
  apply Rsum_map_term_le.
  - exact distribution_nonneg_in.
  - apply in_seq. lia.
Qed.


Lemma distribution_term_nonpos (c : nat) :
  In c (seq 0 numClasses) -> plogp (f c) <= 0.
Proof.
  intros Hc. apply plogp_le_0. apply distribution_le_1.
  apply in_seq in Hc. lia.
Qed.


Hypothesis entropy_is_0 : entropy numClasses f = 0.

(** With entropy sum zero, a class of positive frequency has frequency
    one. *)
Lemma entropy_zero_inv (c : nat) :
  (c < numClasses)%nat -> 0 < f c -> f c = 1.
Proof.
  intros Hc Hfc. apply plogp_eq_0; trivial.
  apply (Rsum_map_nonpos_zero (fun c => plogp (f c)) (seq 0 numClasses)).
  - exact distribution_term_nonpos.
  - exact entropy_is_0.
  - apply in_seq. lia.
Qed.

(** With entropy sum zero, all classes of positive frequency are one
    class. *)
Lemma entropy_zero_unique (c c' : nat) :
  (c < numClasses)%nat -> (c' < numClasses)%nat ->
  0 < f c -> 0 < f c' -> c = c'.
Proof.
  intros Hc Hc' Hfc Hfc'.
  destruct (Nat.eq_dec c c') as [E | E]; trivial.
  pose proof (entropy_zero_inv c Hc Hfc) as E1.
  pose proof (entropy_zero_inv c' Hc' Hfc') as E2.
  assert (H : f c + f c' <= Rsum (map f (seq 0 numClasses))).
  { apply Rsum_map_two_terms_le; trivial.
    - exact distribution_nonneg_in.
    - apply in_seq. lia.
    - apply in_seq. lia. }
  lra.
Qed.

End Distribution.

(** The observed frequencies form a distribution. *)
Lemma freq_distribution (numClasses : nat) (labels : list nat) :
  labels <> [] ->
  in_range numClasses labels ->
  (forall c, 0 <= freq labels c) /\
  Rsum (map (freq labels) (seq 0 numClasses)) = 1.
Proof.
  intros Hne Hr.
  assert (Hn : 0 < INR (length labels)).
  { apply lt_0_INR. destruct labels; [contradiction | simpl; lia]. }
  split.
  - intros c. unfold freq. apply Rmult_le_pos.
    + apply pos_INR.
    + left. apply Rinv_0_lt_compat. exact Hn.
  - unfold freq, Rdiv.
    rewrite (Rsum_map_scale (/ INR (length labels))
               (fun c => INR (count c labels))).
    rewrite Rsum_count by assumption. field. lra.
Qed.

(** The weighted frequency shares form a distribution when the total weight
    is not zero. *)
Lemma wfreq_distribution (numClasses : nat) (labels : list nat)
    (weights : list double) :
  in_range numClasses labels ->
  length weights = length labels ->
  Forall nonneg weights ->
  total weights <> 0 ->
  (forall c, 0 <= wfreq labels weights c) /\
  Rsum (map (wfreq labels weights) (seq 0 numClasses)) = 1.
Proof.
  intros Hr Hlen Hw Htot.
  pose proof (total_nonneg weights Hw) as Ht.
  split.
  - intros c. unfold wfreq. apply Rmult_le_pos.
    + apply wcount_nonneg. exact Hw.
    + left. apply Rinv_0_lt_compat. lra.
  - unfold wfreq, Rdiv.
    rewrite (Rsum_map_scale (/ total weights)
               (fun c => wcount c labels weights)).
    rewrite Rsum_wcount by assumption. field. exact Htot.
Qed.

(** ** Labels out of range *)

Lemma in_range_dec (numClasses : nat) (labels : list nat) :
  {in_range numClasses labels} + {~ in_range numClasses labels}.
Proof. apply Forall_dec. intros l. apply lt_dec. Qed.

(** A label that is no index of the accumulator makes the unweighted
    counting loop undefined. *)
Lemma tally_all_out_of_range (labels : list nat) :
  forall (v : list double),
    ~ in_range (length v) labels -> tally_all labels v = None.
Proof.
  induction labels as [| l labels IH]; intros v Hr.
  - exfalso. apply Hr. constructor.
  - simpl. destruct (add_at v l one) as [v1 |] eqn:E; simpl; trivial.
    apply IH. intros Hr'. apply Hr.
    rewrite (add_at_length _ _ _ _ E) in Hr'. constructor; trivial.
    destruct (lt_dec l (length v)) as [Hl | Hl]; trivial.
    rewrite add_at_None in E by lia. discriminate.
Qed.

(** And so does it for the weighted counting loop. *)
Lemma tally_weighted_all_out_of_range (labels : list nat) :
  forall (weights : list double) (st : list double * double),
    ~ in_range (length (fst st)) labels ->
    tally_weighted_all labels weights st = None.
Proof.
  induction labels as [| l labels IH]; intros weights st Hr.
  - exfalso. apply Hr. constructor.
  - simpl. destruct weights as [| w weights]; trivial.
    destruct (add_at (fst st) l w) as [v1 |] eqn:E; simpl; trivial.
    apply IH. simpl. intros Hr'. apply Hr.
    rewrite (add_at_length _ _ _ _ E) in Hr'. constructor; trivial.
    destruct (lt_dec l (length (fst st))) as [Hl | Hl]; trivial.
    rewrite add_at_None in E by lia. discriminate.
Qed.

Lemma Evaluate_out_of_range (UseWeights : bool) (labels : list nat)
    (numClasses : nat) (weights : list double) :
  ~ in_range numClasses labels ->
  Evaluate UseWeights labels numClasses weights = None.
Proof.
  intros Hr.
  assert (Hne : labels <> []) by (intros ->; apply Hr; constructor).
  destruct UseWeights.
  - rewrite Evaluate_weighted by assumption.
    rewrite tally_weighted_all_out_of_range; trivial.
    simpl. rewrite zeros_length. exact Hr.
  - rewrite Evaluate_unweighted by assumption.
    rewrite tally_all_out_of_range; trivial.
    rewrite zeros_length. exact Hr.
Qed.

Example Evaluate_label_out_of_bounds :
  Evaluate false [5]%nat 2 [] = None.
Proof. reflexivity. Qed.

Example Evaluate_weights_too_short :
  Evaluate true [0; 1]%nat 2 [one] = None.
Proof. reflexivity. Qed.

(** ** Equal weights *)



Lemma Forall_repeat {A : Type} (P : A -> Prop) (x : A) (n : nat) :
  P x -> Forall P (repeat x n).
Proof. intros H. induction n; simpl; constructor; trivial. Qed.

(** ** A larger accumulator *)

Lemma store_app (v z : list double) :
  forall (k : nat) (x : double),
    (k < length v)%nat -> store (v ++ z) k x = store v k x ++ z.
Proof.
  induction v as [| y v IH]; intros k x Hk; simpl in *; [lia |].
  destruct k as [| k]; simpl; trivial.
  rewrite IH by lia. reflexivity.
Qed.

Lemma add_at_app (v z : list double) (k : nat) (w : double) :
  (k < length v)%nat ->
  add_at (v ++ z) k w = (v' <- add_at v k w ;; Some (v' ++ z)).
Proof.
  intros Hk. unfold add_at. rewrite nth_error_app1 by assumption.
  destruct (nth_error v k) as [c |] eqn:E; simpl.
  - rewrite store_app by assumption. reflexivity.
  - apply nth_error_None in E. lia.
Qed.

Lemma tally_all_app (z : list double) (labels : list nat) :
  forall (v : list double),
    in_range (length v) labels ->
    tally_all labels (v ++ z) =
    (v' <- tally_all labels v ;; Some (v' ++ z)).
Proof.
  induction labels as [| l labels IH]; intros v Hr; simpl; trivial.
  inversion Hr as [| ? ? Hl Hr']; subst.
  rewrite add_at_app by assumption.
  destruct (add_at v l one) as [v1 |] eqn:E; simpl; trivial.
  apply IH. rewrite (add_at_length _ _ _ _ E). exact Hr'.
Qed.

Lemma tally_weighted_all_app (z : list double) (labels : list nat) :
  forall (weights : list double) (v : list double) (acc : double),
    in_range (length v) labels ->
    tally_weighted_all labels weights (v ++ z, acc) =
    (st <- tally_weighted_all labels weights (v, acc) ;;
     Some (fst st ++ z, snd st)).
Proof.
  induction labels as [| l labels IH]; intros weights v acc Hr; simpl; trivial.
  inversion Hr as [| ? ? Hl Hr']; subst.
  destruct weights as [| w weights]; trivial.
  rewrite add_at_app by assumption.
  destruct (add_at v l w) as [v1 |] eqn:E; simpl; trivial.
  apply IH. rewrite (add_at_length _ _ _ _ E). exact Hr'.
Qed.

Lemma zeros_add (n m : nat) : zeros (n + m) = zeros n ++ zeros m.
Proof. apply repeat_app. Qed.

Lemma fold_gain_step_app_zeros (d gain : double) (v : list double) (m : nat) :
  fold_left (gain_step d) (v ++ zeros m) gain = fold_left (gain_step d) v gain.
Proof. rewrite fold_left_app. apply fold_gain_step_zeros. Qed.

(** Cells added to the accumulator beyond the classes in use change
    nothing. *)
Lemma Evaluate_more_classes (UseWeights : bool) (labels : list nat)
    (numClasses m : nat) (weights : list double) :
  in_range numClasses labels ->
  Evaluate UseWeights labels (numClasses + m) weights =
  Evaluate UseWeights labels numClasses weights.
Proof.
  intros Hr.
  destruct labels as [| l labels]; [reflexivity |].
  assert (Hr0 : in_range (length (zeros numClasses)) (l :: labels))
    by (rewrite zeros_length; exact Hr).
  destruct UseWeights.
  - rewrite !Evaluate_weighted by discriminate.
    rewrite zeros_add, tally_weighted_all_app by assumption.
    destruct (tally_weighted_all (l :: labels) weights
                (zeros numClasses, zero)) as [[counts acc] |];
      cbn [bind fst snd]; trivial.
    rewrite fold_gain_step_app_zeros. reflexivity.
  - rewrite !Evaluate_unweighted by discriminate.
    rewrite zeros_add, tally_all_app by assumption.
    destruct (tally_all (l :: labels) (zeros numClasses)) as [counts |];
      cbn [bind]; trivial.
    rewrite fold_gain_step_app_zeros. reflexivity.
Qed.

(** ** Points of weight zero *)

Lemma store_same (v : list double) :
  forall (k : nat) (c : double), nth_error v k = Some c -> store v k c = v.
Proof.
  induction v as [| y v IH]; intros k c H; simpl; trivial.
  destruct k as [| k]; simpl in *.
  - injection H as ->. reflexivity.
  - rewrite IH by assumption. reflexivity.
Qed.

Lemma add_at_zero (v : list double) (k : nat) :
  (k < length v)%nat -> add_at v k zero = Some v.
Proof.
  intros Hk. unfold add_at.
  destruct (nth_error v k) as [c |] eqn:E; simpl.
  - rewrite add_zero_r, store_same by assumption. reflexivity.
  - apply nth_error_None in E. lia.
Qed.

(** A point of weight zero, wherever it stands, leaves both accumulators of
    the weighted counting loop as they are. *)
Lemma tally_weighted_all_insert_zero (l : nat) (labels2 : list nat)
    (weights2 : list double) (labels1 : list nat) :
  forall (weights1 : list double) (st : list double * double),
    length labels1 = length weights1 ->
    (l < length (fst st))%nat ->
    tally_weighted_all (labels1 ++ l :: labels2)
                       (weights1 ++ zero :: weights2) st =
    tally_weighted_all (labels1 ++ labels2) (weights1 ++ weights2) st.
Proof.
  induction labels1 as [| a labels1 IH]; intros weights1 st Hlen Hl.
  - destruct weights1; try discriminate. cbn [app tally_weighted_all].
    rewrite add_at_zero by assumption. cbn [bind].
    rewrite add_zero_r. destruct st; reflexivity.
  - destruct weights1 as [| b weights1]; try discriminate.
    injection Hlen as Hlen. cbn [app tally_weighted_all].
    destruct (add_at (fst st) a b) as [v1 |] eqn:E; cbn [bind]; trivial.
    apply IH; trivial. cbn [fst].
    rewrite (add_at_length _ _ _ _ E). exact Hl.
Qed.

(** ** The accumulated weight *)

Lemma tally_weighted_all_acc (labels : list nat) :
  forall (weights : list double) (st : list double * double),
    in_range (length (fst st)) labels ->
    length weights = length labels ->
    exists counts,
      tally_weighted_all labels weights st =
      Some (counts, fold_left add weights (snd st)).
Proof.
  induction labels as [| l labels IH]; intros weights st Hr Hlen.
  - destruct weights; try discriminate. exists (fst st).
    destruct st; reflexivity.
  - destruct weights as [| w weights]; try discriminate.
    injection Hlen as Hlen. inversion Hr as [| ? ? Hl Hr']; subst.
    cbn [tally_weighted_all fold_left].
    destruct (add_at (fst st) l w) as [v1 |] eqn:E.
    + cbn [bind].
      destruct (IH weights (v1, (snd st + w)%D)) as [counts Hc]; trivial.
      * cbn [fst]. rewrite (add_at_length _ _ _ _ E). exact Hr'.
      * exists counts. exact Hc.
    + unfold add_at in E.
      destruct (nth_error (fst st) l) eqn:En; try discriminate.
      apply nth_error_None in En. lia.
Qed.

(** ** Pure label sets *)

Lemma count_pure (c c' : nat) (labels : list nat) :
  Forall (fun l => l = c) labels ->
  count c' labels = if Nat.eqb c c' then length labels else 0%nat.
Proof.
  unfold count. induction 1 as [| l labels Hl _ IH]; simpl.
  - destruct (Nat.eqb c c'); reflexivity.
  - subst l. rewrite IH.
    destruct (Nat.eq_dec c c') as [E | E].
    + subst. rewrite Nat.eqb_refl. reflexivity.
    + apply Nat.eqb_neq in E. rewrite E. reflexivity.
Qed.

Lemma wcount_pure (c c' : nat) (labels : list nat) :
  forall (weights : list double),
    Forall (fun l => l = c) labels ->
    length weights = length labels ->
    wcount c' labels weights = if Nat.eqb c c' then total weights else 0.
Proof.
  induction labels as [| l labels IH]; intros weights Hp Hlen.
  - destruct weights; try discriminate. unfold total. simpl.
    destruct (Nat.eqb c c'); reflexivity.
  - destruct weights as [| w weights]; try discriminate.
    injection Hlen as Hlen. inversion Hp as [| ? ? Hl Hp']; subst.
    cbn [wcount]. rewrite IH by assumption. unfold total. simpl.
    destruct (Nat.eqb c c'); lra.
Qed.

Lemma entropy_zero_terms (numClasses : nat) (f : nat -> R) :
  (forall c, (c < numClasses)%nat -> plogp (f c) = 0) ->
  entropy numClasses f = 0.
Proof.
  intros H. unfold entropy.
  rewrite (map_ext_in _ (fun _ => 0)).
  - rewrite Rsum_map_const. lra.
  - intros c Hc. apply in_seq in Hc. apply H. lia.
Qed.

Lemma count_pos (l : nat) (labels : list nat) :
  In l labels -> 0 < INR (count l labels).
Proof.
  intros H. apply lt_0_INR. unfold count.
  apply (count_occ_In Nat.eq_dec) in H. lia.
Qed.

Lemma wcount_pos (l : nat) (labels : list nat) :
  forall (weights : list double),
    In l labels ->
    length weights = length labels ->
    Forall positive weights ->
    0 < wcount l labels weights.
Proof.
  induction labels as [| a labels IH]; intros weights Hin Hlen Hw;
    [contradiction |].
  destruct weights as [| w weights]; try discriminate.
  injection Hlen as Hlen. inversion Hw as [| ? ? Hw1 Hw2]; subst.
  assert (Hnn : Forall nonneg weights).
  { revert Hw2. apply Forall_impl. intros x. destruct x; simpl; lra. }
  pose proof (wcount_nonneg l labels weights Hnn) as H0.
  cbn [wcount]. destruct (Nat.eqb_spec a l) as [E | E].
  - destruct w; simpl in *; try contradiction. lra.
  - destruct Hin as [Hin | Hin]; [contradiction |].
    pose proof (IH weights Hin Hlen Hw2). lra.
Qed.

Lemma positive_nonneg (weights : list double) :
  Forall positive weights -> Forall nonneg weights.
Proof. apply Forall_impl. intros x. destruct x; simpl; lra. Qed.

Lemma total_pos (weights : list double) :
  weights <> [] -> Forall positive weights -> 0 < total weights.
Proof.
  intros Hne Hw. destruct weights as [| w weights]; [contradiction |].
  inversion Hw as [| ? ? Hw1 Hw2]; subst.
  pose proof (total_nonneg weights (positive_nonneg _ Hw2)) as H.
  unfold total in *. simpl. destruct w; simpl in *; try contradiction. lra.
Qed.

(** ** Each class once *)





(** ** The code over an arbitrary arithmetic *)

(** The model of the first part is the generic code at the exact
    arithmetic. *)
Lemma Evaluate_exact (UseWeights : bool) (labels : list nat)
    (numClasses : nat) (weights : list double) :
  Evaluate UseWeights labels numClasses weights =
  Generic.Evaluate exact UseWeights labels numClasses weights.
Proof. reflexivity. Qed.

Lemma Range_exact (numClasses : nat) :
  Range numClasses = Generic.Range exact numClasses.
Proof. reflexivity. Qed.

(** [std::log2] on doubles: at the special values, at powers of two, and
    at eleven and the double next to one eleventh, where it rounds. *)
Example log2_binary64 :
  Binary64.log2 1%float = 0%float /\
  Binary64.log2 0.5%float = (-1)%float /\
  Binary64.log2 8%float = 3%float /\
  Binary64.log2 0%float = PrimFloat.neg_infinity /\
  Binary64.log2 (-1)%float = PrimFloat.nan /\
  Binary64.log2 PrimFloat.infinity = PrimFloat.infinity /\
  Binary64.log2 11%float = 0x1.bacea7c065d42p+1%float /\
  Binary64.log2 0x1.745d1745d1746p-4%float = (-0x1.bacea7c065d42p+1)%float.
Proof. repeat (split; [vm_compute; reflexivity |]). vm_compute. reflexivity. Qed.

Section AnyArithmetic.

Variable A : arithmetic.

Lemma store_map_seq_any (F : nat -> num A) (x : num A) (n : nat) :
  forall (s k : nat),
    Generic.store A (map F (seq s n)) k x =
    map (fun c => if Nat.eqb c (s + k) then x else F c) (seq s n).
Proof.
  induction n as [| n IH]; intros s k; simpl; trivial.
  destruct k as [| k]; simpl.
  - rewrite Nat.add_0_r, Nat.eqb_refl. f_equal.
    apply map_ext_in. intros c Hc. apply in_seq in Hc.
    destruct (Nat.eqb_spec c s); trivial. lia.
  - destruct (Nat.eqb_spec s (s + S k)); [lia |]. f_equal.
    rewrite IH. apply map_ext. intros c.
    replace (S s + k)%nat with (s + S k)%nat by lia. reflexivity.
Qed.

Lemma add_at_map_seq_any (F : nat -> num A) (n k : nat) (w : num A) :
  (k < n)%nat ->
  Generic.add_at A (map F (seq 0 n)) k w =
  Some (map (fun c => if Nat.eqb k c then num_add A (F c) w else F c)
            (seq 0 n)).
Proof.
  intros H. unfold Generic.add_at. rewrite (nth_error_map_seq F n k H).
  cbn [bind]. rewrite store_map_seq_any. f_equal.
  apply map_ext. intros c. simpl. rewrite (Nat.eqb_sym k c).
  destruct (Nat.eqb_spec c k); subst; reflexivity.
Qed.

Lemma zeros_map_seq_any (n : nat) :
  Generic.zeros A n = map (fun _ => num_zero A) (seq 0 n).
Proof.
  unfold Generic.zeros. generalize 0%nat.
  induction n as [| n IH]; intros s; simpl; trivial.
  f_equal. apply IH.
Qed.

(** The unweighted counting loop adds one [1.0] to cell [c] for each point
    of class [c]; no other cell is touched. *)
Lemma tally_loop_any (numClasses : nat) (rest : list nat) :
  forall (pre : list nat) (g : nat -> num A),
    in_range numClasses rest ->
    for_from (length pre) (length rest) (Generic.tally A (pre ++ rest))
             (map g (seq 0 numClasses)) =
    Some (map (fun c => fold_left (num_add A)
                          (repeat (num_one A) (count c rest)) (g c))
              (seq 0 numClasses)).
Proof.
  induction rest as [| l rest IH]; intros pre g Hr.
  - reflexivity.
  - inversion Hr as [| ? ? Hl Hr']; subst.
    cbn [length for_from]. unfold Generic.tally at 1.
    rewrite nth_error_middle. cbn [bind].
    rewrite add_at_map_seq_any by assumption. cbn [bind].
    rewrite (app_cons_assoc pre l rest), <- (length_snoc pre l).
    rewrite IH by assumption. f_equal. apply map_ext. intros c.
    unfold count. simpl count_occ.
    destruct (Nat.eq_dec l c) as [E | E].
    + subst. rewrite Nat.eqb_refl. reflexivity.
    + apply Nat.eqb_neq in E. rewrite E. reflexivity.
Qed.

Lemma class_weights_cons (c l : nat) (w : num A) (labels : list nat)
    (weights : list (num A)) :
  class_weights A c (l :: labels) (w :: weights) =
  if Nat.eqb l c then w :: class_weights A c labels weights
  else class_weights A c labels weights.
Proof.
  unfold class_weights. simpl. destruct (Nat.eqb l c); reflexivity.
Qed.

(** The weighted counting loop adds to cell [c] the weights of the points
    of class [c], in order, and to [accWeights] all the weights, in
    order. *)
Lemma tally_weighted_loop_any (numClasses : nat) (rest : list nat) :
  forall (pre : list nat) (wpre wrest : list (num A)) (g : nat -> num A)
         (a : num A),
    in_range numClasses rest ->
    length wpre = length pre ->
    length wrest = length rest ->
    for_from (length pre) (length rest)
             (Generic.tally_weighted A (pre ++ rest) (wpre ++ wrest))
             (map g (seq 0 numClasses), a) =
    Some (map (fun c => fold_left (num_add A)
                          (class_weights A c rest wrest) (g c))
              (seq 0 numClasses),
          fold_left (num_add A) wrest a).
Proof.
  induction rest as [| l rest IH]; intros pre wpre wrest g a Hr Hp Hw.
  - destruct wrest; [reflexivity | discriminate].
  - destruct wrest as [| w wrest]; try discriminate. injection Hw as Hw.
    inversion Hr as [| ? ? Hl Hr']; subst.
    cbn [length for_from]. unfold Generic.tally_weighted at 1.
    rewrite nth_error_middle. cbn [bind].
    rewrite <- Hp, nth_error_middle. cbn [bind].
    rewrite add_at_map_seq_any by assumption. cbn [bind].
    rewrite Hp.
    rewrite (app_cons_assoc pre l rest), (app_cons_assoc wpre w wrest).
    rewrite <- (length_snoc pre l).
    rewrite IH; trivial.
    + f_equal. f_equal. apply map_ext. intros c.
      rewrite class_weights_cons. destruct (Nat.eqb l c); reflexivity.
    + rewrite !length_snoc. f_equal. exact Hp.
Qed.

(** The summing loop adds [f * log2 f] for the classes whose [f] passes
    the guard, in increasing order. *)
Lemma accumulate_loop_any (numClasses : nat) (cnt : nat -> num A)
    (denom : num A) (n : nat) :
  forall (s : nat) (gain : num A),
    (s + n <= numClasses)%nat ->
    for_from s n
             (Generic.accumulate A (map cnt (seq 0 numClasses)) denom) gain =
    Some (fold_left (num_add A)
            (map (fun c => num_mul A (num_div A (cnt c) denom)
                                   (num_log2 A (num_div A (cnt c) denom)))
                 (filter (fun c => num_gtb A (num_div A (cnt c) denom)
                                           (num_zero A))
                         (seq s n)))
            gain).
Proof.
  induction n as [| n IH]; intros s gain Hs; [reflexivity |].
  cbn [for_from seq filter]. unfold Generic.accumulate at 1.
  rewrite nth_error_map_seq by lia. cbn [bind].
  destruct (num_gtb A (num_div A (cnt s) denom) (num_zero A));
    cbn [bind map fold_left]; apply IH; lia.
Qed.

(** On input that is read within bounds, the code returns the value of
    the specification in the arithmetic of the program, whatever that
    arithmetic is. *)
Lemma Evaluate_rounded_value (UseWeights : bool) (labels : list nat)
    (numClasses : nat) (weights : list (num A)) :
  in_range numClasses labels ->
  (UseWeights = true -> length weights = length labels) ->
  Generic.Evaluate A UseWeights labels numClasses weights =
  Some (if Nat.eqb (length labels) 0 then num_zero A
        else rounded_value A UseWeights labels numClasses weights).
Proof.
  intros Hr Hw. unfold Generic.Evaluate.
  destruct (Nat.eqb (length labels) 0); [reflexivity |].
  unfold for_loop, rounded_value. rewrite zeros_map_seq_any.
  destruct UseWeights; cbn [andb].
  - specialize (Hw eq_refl).
    rewrite (tally_weighted_loop_any numClasses labels [] [] weights)
      by (trivial; reflexivity).
    cbn [bind]. unfold denominator, running_sum.
    destruct (num_eqb A (fold_left (num_add A) weights (num_zero A))
                      (num_zero A)); [reflexivity |].
    rewrite accumulate_loop_any by lia. reflexivity.
  - rewrite (tally_loop_any numClasses labels []) by assumption.
    cbn [bind]. rewrite accumulate_loop_any by lia. reflexivity.
Qed.

End AnyArithmetic.

(** ** The claims *)

(** Discharges [valid] on a concrete input. *)
Ltac valid_input :=
  split;
  [ repeat constructor
  | intros _; split; [reflexivity | repeat constructor; simpl; lra] ].

Lemma wcount_zero_total (numClasses : nat) (labels : list nat)
    (weights : list double) (c : nat) :
  in_range numClasses labels ->
  length weights = length labels ->
  Forall nonneg weights ->
  total weights = 0 ->
  (c < numClasses)%nat ->
  wcount c labels weights = 0.
Proof.
  intros Hr Hlen Hw Htot Hc.
  pose proof (wcount_nonneg c labels weights Hw) as H0.
  pose proof (Rsum_map_term_le (fun c => wcount c labels weights)
                (seq 0 numClasses) c) as H1.
  rewrite Rsum_wcount, Htot in H1 by assumption.
  assert (wcount c labels weights <= 0).
  { apply H1.
    - intros y _. apply wcount_nonneg. exact Hw.
    - apply in_seq. lia. }
  lra.
Qed.

(** Valid input: what [Evaluate] returns, in both modes. *)
Lemma Evaluate_value (UseWeights : bool) (labels : list nat)
    (numClasses : nat) (weights : list double) :
  labels <> [] ->
  valid UseWeights labels numClasses weights ->
  Evaluate UseWeights labels numClasses weights =
  Some (Fin (entropy numClasses (frequency UseWeights labels weights))).
Proof.
  intros Hne [Hr Hw]. destruct UseWeights; unfold frequency.
  - destruct (Hw eq_refl) as [Hlen Hnn].
    pose proof (Forall_nonneg_finite _ Hnn) as Hfin.
    destruct (Req_dec_T (total weights) 0) as [Htot | Htot].
    + rewrite Evaluate_weighted_zero by assumption.
      rewrite entropy_zero_terms; trivial.
      intros c Hc. unfold wfreq.
      rewrite (wcount_zero_total numClasses) by assumption.
      unfold Rdiv. rewrite Rmult_0_l. apply plogp_0.
    + apply Evaluate_weighted_value; assumption.
  - apply Evaluate_unweighted_value; assumption.
Qed.

(** The sum of the claim for two classes of equal positive weight. *)
Lemma entropy_sum_equal_pair (w : R) :
  0 < w -> entropy_sum 2 (wfreq [0; 1]%nat [Fin w; Fin w]) = -1.
Proof.
  intros Hw. rewrite entropy_sum_entropy. unfold entropy.
  cbn [seq map Rsum fold_right].
  assert (E : forall c, (c < 2)%nat ->
                        wfreq [0; 1]%nat [Fin w; Fin w] c = / 2).
  { intros c Hc. unfold wfreq, total.
    assert (Hcases : c = 0%nat \/ c = 1%nat) by lia.
    destruct Hcases as [-> | ->]; simpl; field; lra. }
  rewrite !E by lia.
  rewrite plogp_pos by lra. rewrite Rlog2_inv, Rlog2_2 by lra. lra.
Qed.

(** C1, as stated, fails on doubles.  Labels [[0,1]] with the weights
    [[2^1023, 2^1023]] are a valid input; the frequencies are 1/2 and 1/2
    and the sum of the claim is [-1] (as for any two equal positive
    weights).  In the program [accWeights] overflows to plus infinity,
    both [f] are [0.0] and fail the guard, and the result is [0.0]. *)
Lemma C1_counterexample :
  IEEE.Evaluate true [0; 1]%nat 2 [0x1p+1023%float; 0x1p+1023%float] =
  Some 0%float /\
  (forall w : R,
      0 < w -> entropy_sum 2 (wfreq [0; 1]%nat [Fin w; Fin w]) = -1).
Proof.
  split.
  - vm_compute. reflexivity.
  - exact entropy_sum_equal_pair.
Qed.

(** C1, amended.  For a non-empty label vector with all labels in
    [[0, numClasses)] (and, in weighted mode, one weight per label),
    [Evaluate] returns the sum, over the classes [c] with [f_c > 0.0] in
    increasing order, of [f_c * log2 (f_c)], computed in double precision:
    every sum, product and quotient is rounded, [f_c] is the rounded
    quotient of the count of class [c] ([1.0] added once per point of the
    class, or the running sum of the weights of its points) by [(double) n]
    (or by the running sum of all weights), and a total weight equal to
    [0.0] gives [0.0].  In particular, for labels [[0,0,1,1]],
    [numClasses = 2] and unweighted mode the result is exactly [-1.0]. *)
Theorem C1_Evaluate_rounded_sum :
  (forall (UseWeights : bool) (labels : list nat) (numClasses : nat)
          (weights : list float),
      labels <> [] ->
      in_range numClasses labels ->
      (UseWeights = true -> length weights = length labels) ->
      IEEE.Evaluate UseWeights labels numClasses weights =
      Some (rounded_value binary64 UseWeights labels numClasses weights)) /\
  IEEE.Evaluate false [0; 0; 1; 1]%nat 2 [] = Some (-1)%float.
Proof.
  split.
  - intros UseWeights labels numClasses weights Hne Hr Hw.
    unfold IEEE.Evaluate. rewrite Evaluate_rounded_value by assumption.
    destruct labels; [contradiction | reflexivity].
  - vm_compute. reflexivity.
Qed.

Lemma C1_witness :
  IEEE.Evaluate true [0; 0; 0; 1]%nat 2 [1%float; 1%float; 1%float; 1%float] =
  Some (rounded_value binary64 true [0; 0; 0; 1]%nat 2
                      [1%float; 1%float; 1%float; 1%float]).
Proof.
  apply (proj1 C1_Evaluate_rounded_sum).
  - discriminate.
  - repeat constructor.
  - reflexivity.
Defined.

Lemma Range_value (numClasses : nat) :
  (1 <= numClasses)%nat -> Range numClasses = Fin (Rlog2 (INR numClasses)).
Proof.
  intros H. unfold Range, of_nat, log2.
  rewrite Rsign_pos by (apply lt_0_INR; lia). reflexivity.
Qed.



(** The weighted scenario of the specification: labels [[0,0,0,1]] with
    unit weights and two classes. *)
Example Evaluate_three_to_one :
  Evaluate true [0; 0; 0; 1]%nat 2 [one; one; one; one] =
  Some (Fin (3 / 4 * Rlog2 (3 / 4) + 1 / 4 * Rlog2 (1 / 4))).
Proof.
  rewrite Evaluate_value by (try discriminate; valid_input).
  f_equal. f_equal. unfold entropy, frequency.
  cbn [seq map Rsum fold_right].
  assert (E0 : wfreq [0; 0; 0; 1]%nat [one; one; one; one] 0 = 3 / 4)
    by (unfold wfreq, total; simpl; lra).
  assert (E1 : wfreq [0; 0; 0; 1]%nat [one; one; one; one] 1 = 1 / 4)
    by (unfold wfreq, total; simpl; lra).
  rewrite E0, E1, !plogp_pos by lra. lra.
Qed.





(** C3. For every [numClasses] (in particular every [numClasses >= 1]) and
    in both modes, [Evaluate] on an empty label vector returns exactly
    [0.0], whatever the weight vector is. *)
Theorem C3_Evaluate_empty (UseWeights : bool) (numClasses : nat)
    (weights : list double) :
  Evaluate UseWeights [] numClasses weights = Some zero.
Proof. reflexivity. Qed.

(** Weighted mode returns zero as soon as the accumulated weight is zero. *)
Lemma Evaluate_zero_sum_weights (labels : list nat) (numClasses : nat)
    (weights : list double) :
  labels <> [] ->
  in_range numClasses labels ->
  length weights = length labels ->
  sum_weights weights = zero ->
  Evaluate true labels numClasses weights = Some zero.
Proof.
  intros Hne Hr Hlen Hsum. rewrite Evaluate_weighted by assumption.
  destruct (tally_weighted_all_acc labels weights (zeros numClasses, zero))
    as [counts Hc]; trivial.
  - cbn [fst]. rewrite zeros_length. exact Hr.
  - rewrite Hc. cbn [bind fst snd]. fold (sum_weights weights).
    rewrite Hsum. unfold zero. rewrite eqb_Fin_zero_true; reflexivity.
Qed.

Lemma sum_weights_repeat_zero (n : nat) : sum_weights (repeat zero n) = zero.
Proof.
  unfold sum_weights. induction n as [| n IH]; cbn [repeat fold_left]; trivial.
  rewrite (add_zero_r zero). exact IH.
Qed.

(** C4. In weighted mode, for every non-empty label vector (labels in
    range, one weight per label) whose weights sum to exactly [0.0],
    [Evaluate] returns [0.0] whatever the labels are: the guard on
    [accWeights] returns before any division.  This is so in particular
    when every weight is [0.0]. *)
Theorem C4_Evaluate_zero_total_weight :
  (forall (labels : list nat) (numClasses : nat) (weights : list double),
      labels <> [] ->
      in_range numClasses labels ->
      length weights = length labels ->
      sum_weights weights = zero ->
      Evaluate true labels numClasses weights = Some zero) /\
  (forall (labels : list nat) (numClasses : nat),
      labels <> [] ->
      in_range numClasses labels ->
      Evaluate true labels numClasses (repeat zero (length labels)) =
      Some zero).
Proof.
  split.
  - exact Evaluate_zero_sum_weights.
  - intros labels numClasses Hne Hr.
    apply Evaluate_zero_sum_weights; trivial.
    + apply repeat_length.
    + apply sum_weights_repeat_zero.
Qed.

Lemma C4_witness :
  Evaluate true [0; 1]%nat 2 [zero; zero] = Some zero.
Proof.
  apply (proj1 C4_Evaluate_zero_total_weight).
  - discriminate.
  - repeat constructor.
  - reflexivity.
  - unfold sum_weights, zero. simpl. f_equal. lra.
Defined.

(** A pure label set evaluates to zero, in both modes. *)
Lemma Evaluate_pure (UseWeights : bool) (labels : list nat)
    (numClasses : nat) (weights : list double) :
  valid UseWeights labels numClasses weights ->
  pure labels ->
  Evaluate UseWeights labels numClasses weights = Some zero.
Proof.
  intros Hv [c0 Hp].
  destruct labels as [| l labels]; [destruct UseWeights; reflexivity |].
  assert (Hne : l :: labels <> []) by discriminate.
  rewrite Evaluate_value by assumption.
  rewrite entropy_zero_terms; trivial.
  intros c Hc. destruct Hv as [Hr Hw].
  destruct UseWeights; unfold frequency.
  - destruct (Hw eq_refl) as [Hlen Hnn]. unfold wfreq, Rdiv.
    rewrite (wcount_pure c0) by assumption.
    destruct (Nat.eqb c0 c).
    + destruct (Req_dec_T (total weights) 0) as [Htot | Htot].
      * rewrite Htot, Rmult_0_l. apply plogp_0.
      * rewrite Rinv_r by assumption. apply plogp_1.
    + rewrite Rmult_0_l. apply plogp_0.
  - unfold freq, Rdiv. rewrite (count_pure c0) by assumption.
    destruct (Nat.eqb c0 c).
    + rewrite Rinv_r by (apply INR_length_nonzero; assumption).
      apply plogp_1.
    + change (INR 0) with 0. rewrite Rmult_0_l. apply plogp_0.
Qed.

(** In exact arithmetic, a label set that evaluates to zero is pure,
    provided that in weighted mode every weight is strictly positive. *)
Lemma Evaluate_zero_pure (UseWeights : bool) (labels : list nat)
    (numClasses : nat) (weights : list double) :
  valid UseWeights labels numClasses weights ->
  (UseWeights = true -> Forall positive weights) ->
  Evaluate UseWeights labels numClasses weights = Some zero ->
  pure labels.
Proof.
  intros Hv Hpw He.
  destruct labels as [| l0 labels]; [exists 0%nat; constructor |].
  assert (Hne : l0 :: labels <> []) by discriminate.
  rewrite Evaluate_value in He by assumption.
  injection He as He. destruct Hv as [Hr Hw].
  assert (Hin : forall l, In l (l0 :: labels) -> (l < numClasses)%nat)
    by (apply Forall_forall; exact Hr).
  exists l0. apply Forall_forall. intros l Hl.
  destruct UseWeights; unfold frequency in He.
  - destruct (Hw eq_refl) as [Hlen Hnn]. specialize (Hpw eq_refl).
    assert (Ht : 0 < total weights).
    { apply total_pos; trivial. intros ->. discriminate. }
    destruct (wfreq_distribution numClasses (l0 :: labels) weights)
      as [Hpos Hsum]; trivial; try lra.
    apply (entropy_zero_unique numClasses (wfreq (l0 :: labels) weights));
      auto.
    + apply Hin. left. reflexivity.
    + unfold wfreq. apply Rdiv_lt_0_compat; trivial.
      apply wcount_pos; trivial.
    + unfold wfreq. apply Rdiv_lt_0_compat; trivial.
      apply wcount_pos; trivial. left. reflexivity.
  - assert (Hn : 0 < INR (length (l0 :: labels)))
      by (apply lt_0_INR; simpl; lia).
    destruct (freq_distribution numClasses (l0 :: labels)) as [Hpos Hsum];
      trivial.
    apply (entropy_zero_unique numClasses (freq (l0 :: labels))); auto.
    + apply Hin. left. reflexivity.
    + unfold freq. apply Rdiv_lt_0_compat; trivial. apply count_pos; trivial.
    + unfold freq. apply Rdiv_lt_0_compat; trivial.
      apply count_pos. left. reflexivity.
Qed.

(** C5, as stated, fails in weighted mode: the labels [[0,1]] with the
    weights [[0.0, 0.0]] are a valid input that is neither empty nor pure,
    and [Evaluate] returns [0.0] on it (the guard on a total weight of
    zero). *)
Lemma C5_counterexample :
  valid true [0; 1]%nat 2 [zero; zero] /\
  Evaluate true [0; 1]%nat 2 [zero; zero] = Some zero /\
  ~ ([0; 1]%nat = [] \/ pure [0; 1]%nat).
Proof.
  split; [| split].
  - valid_input.
  - apply Evaluate_weighted_zero.
    + repeat constructor.
    + reflexivity.
    + repeat constructor.
    + unfold total. simpl. lra.
  - intros [H | [c H]]; [discriminate |].
    inversion H as [| ? ? H0 H']; subst.
    inversion H' as [| ? ? H1 _]; subst. discriminate.
Qed.

(** On doubles even strictly positive weights do not help: with the
    weights [[2^600, 2^-600]] on the labels [[0,1]] the first frequency
    rounds to [1.0], the second underflows to [0.0], and the result is
    [0.0]. *)
Example Evaluate_positive_weights_zero :
  IEEE.Evaluate true [0; 1]%nat 2 [0x1p+600%float; 0x1p-600%float] =
  Some 0%float.
Proof. vm_compute. reflexivity. Qed.

(** C5, amended.  On valid input, an empty or perfectly pure label set
    evaluates to exactly [0.0] in both modes; conversely, in unweighted
    mode, the result is [0.0] only if the label set is empty or all points
    share one class. *)
Theorem C5_Evaluate_zero_pure
    (UseWeights : bool) (labels : list nat) (numClasses : nat)
    (weights : list double) :
  valid UseWeights labels numClasses weights ->
  (labels = [] \/ pure labels ->
   Evaluate UseWeights labels numClasses weights = Some zero) /\
  (UseWeights = false ->
   Evaluate UseWeights labels numClasses weights = Some zero ->
   labels = [] \/ pure labels).
Proof.
  intros Hv. split.
  - intros [-> | Hp].
    + destruct UseWeights; reflexivity.
    + apply Evaluate_pure; assumption.
  - intros Hu He. right. eapply Evaluate_zero_pure; eauto.
    intros Ht. rewrite Hu in Ht. discriminate.
Qed.

Lemma C5_witness :
  (([0; 0]%nat = [] \/ pure [0; 0]%nat ->
    Evaluate false [0; 0]%nat 1 [] = Some zero) /\
   (false = false ->
    Evaluate false [0; 0]%nat 1 [] = Some zero ->
    [0; 0]%nat = [] \/ pure [0; 0]%nat)).
Proof.
  apply C5_Evaluate_zero_pure.
  split; [repeat constructor | discriminate].
Defined.



(** The same values on doubles. *)
Example Range_binary64 :
  IEEE.Range 1 = 0%float /\ IEEE.Range 4 = 2%float /\ IEEE.Range 8 = 3%float.
Proof. split; [| split]; vm_compute; reflexivity. Qed.





(** An instance on doubles: the weight [2^3]. *)
Example Evaluate_binary64_weight_eight :
  IEEE.Evaluate true [0; 1; 1]%nat 2 (repeat 8%float 3) =
  IEEE.Evaluate false [0; 1; 1]%nat 2 [].
Proof. vm_compute. reflexivity. Qed.







(** An instance on doubles: four classes once each. *)
Example Evaluate_binary64_four_classes :
  IEEE.Evaluate false [3; 0; 2; 1]%nat 4 [] = Some (-2)%float /\
  IEEE.Range 4 = 2%float.
Proof. split; vm_compute; reflexivity. Qed.

(** Without the guard, a count of zero would turn the sum into NaN. *)
Lemma zero_times_log2_zero : (zero * log2 zero)%D = NaN.
Proof. unfold zero. simpl. rewrite Rsign_zero. reflexivity. Qed.

(** One turn of the summing loop, by the outcome of its guard. *)
Lemma accumulate_guard (counts : list double) (denom : double) (i : nat)
    (gain c : double) :
  nth_error counts i = Some c ->
  ((c / denom >? zero)%D = false ->
   accumulate counts denom i gain = Some gain) /\
  ((c / denom >? zero)%D = true ->
   log2 (c / denom) <> NaN /\ log2 (c / denom) <> NInf /\
   accumulate counts denom i gain =
   Some (gain + (c / denom) * log2 (c / denom))%D).
Proof.
  intros Hc. unfold accumulate. rewrite Hc. cbn [bind].
  split; intros Hg; rewrite Hg; trivial.
  destruct (guard_log2 _ Hg) as [H1 [H2 _]]. auto.
Qed.

(** Valid input gives a finite value. *)
Lemma Evaluate_finite (UseWeights : bool) (labels : list nat)
    (numClasses : nat) (weights : list double) :
  valid UseWeights labels numClasses weights ->
  exists r : R, Evaluate UseWeights labels numClasses weights = Some (Fin r).
Proof.
  intros Hv. destruct labels as [| l labels].
  - exists 0. destruct UseWeights; reflexivity.
  - eexists. apply Evaluate_value; trivial. discriminate.
Qed.

(** C9. In both modes (the two summing loops share their body), a class
    whose count is zero leaves the sum as it is, whatever the denominator:
    the guard [f > 0.0] fails.  The logarithm is taken only of an [f] that
    passed the guard, and is then neither NaN nor minus infinity; on valid
    input the result is a real number.  Consequently, for labels all
    below [numClasses] and any [numClasses' >= numClasses], [Evaluate]
    returns with [numClasses'] what it returns with [numClasses]. *)
Theorem C9_zero_count_contributes_nothing :
  (forall (counts : list double) (denom : double) (i : nat) (gain : double),
      nth_error counts i = Some zero ->
      accumulate counts denom i gain = Some gain) /\
  (forall (counts : list double) (denom : double) (i : nat)
          (gain c : double),
      nth_error counts i = Some c ->
      ((c / denom >? zero)%D = false ->
       accumulate counts denom i gain = Some gain) /\
      ((c / denom >? zero)%D = true ->
       log2 (c / denom) <> NaN /\ log2 (c / denom) <> NInf /\
       accumulate counts denom i gain =
       Some (gain + (c / denom) * log2 (c / denom))%D)) /\
  (forall (UseWeights : bool) (labels : list nat) (numClasses : nat)
          (weights : list double),
      valid UseWeights labels numClasses weights ->
      exists r : R,
        Evaluate UseWeights labels numClasses weights = Some (Fin r)) /\
  (forall (UseWeights : bool) (labels : list nat)
          (numClasses numClasses' : nat) (weights : list double),
      in_range numClasses labels ->
      (numClasses <= numClasses')%nat ->
      Evaluate UseWeights labels numClasses' weights =
      Evaluate UseWeights labels numClasses weights).
Proof.
  repeat split.
  - intros counts denom i gain Hc.
    destruct (accumulate_guard counts denom i gain zero Hc) as [H _].
    apply H. apply zero_div_not_positive.
  - destruct (accumulate_guard counts denom i gain c H) as [H1 _]. exact H1.
  - destruct (accumulate_guard counts denom i gain c H) as [_ H2].
    apply H2. assumption.
  - destruct (accumulate_guard counts denom i gain c H) as [_ H2].
    apply H2. assumption.
  - destruct (accumulate_guard counts denom i gain c H) as [_ H2].
    apply H2. assumption.
  - intros UseWeights labels numClasses weights. apply Evaluate_finite.
  - intros UseWeights labels numClasses numClasses' weights Hr Hle.
    replace numClasses' with (numClasses + (numClasses' - numClasses))%nat
      by lia.
    apply Evaluate_more_classes. exact Hr.
Qed.

Lemma C9_witness :
  Evaluate false [0; 0; 1; 1]%nat 5 [] = Evaluate false [0; 0; 1; 1]%nat 2 [].
Proof.
  apply (proj2 (proj2 (proj2 C9_zero_count_contributes_nothing))).
  - repeat constructor.
  - lia.
Defined.

(** A point of weight zero changes nothing, wherever it stands. *)
Lemma Evaluate_insert_zero_weight (labels1 labels2 : list nat)
    (weights1 weights2 : list double) (l numClasses : nat) :
  length labels1 = length weights1 ->
  (l < numClasses)%nat ->
  Evaluate true (labels1 ++ l :: labels2) numClasses
           (weights1 ++ zero :: weights2) =
  Evaluate true (labels1 ++ labels2) numClasses (weights1 ++ weights2).
Proof.
  intros Hlen Hl.
  assert (Ht : tally_weighted_all (labels1 ++ l :: labels2)
                 (weights1 ++ zero :: weights2) (zeros numClasses, zero) =
               tally_weighted_all (labels1 ++ labels2)
                 (weights1 ++ weights2) (zeros numClasses, zero)).
  { apply tally_weighted_all_insert_zero; trivial.
    cbn [fst]. rewrite zeros_length. exact Hl. }
  rewrite Evaluate_weighted by (destruct labels1; discriminate).
  rewrite Ht.
  destruct (labels1 ++ labels2) as [| a rest] eqn:E.
  - cbn [tally_weighted_all bind snd].
    change (zero ==? zero)%D with (Fin 0 ==? zero)%D.
    rewrite eqb_Fin_zero_true; reflexivity.
  - rewrite <- E. rewrite Evaluate_weighted; trivial.
    rewrite E. discriminate.
Qed.

(** C10. In weighted mode a point of weight exactly [0.0] is a no-op: for
    aligned label and weight vectors and a label [l] in range, appending
    [(l, 0.0)] leaves the value of [Evaluate] unchanged, and so does
    inserting or removing such a point at any position. *)
Theorem C10_zero_weight_point_is_noop :
  (forall (labels : list nat) (weights : list double) (l numClasses : nat),
      length labels = length weights ->
      (l < numClasses)%nat ->
      Evaluate true (labels ++ [l]) numClasses (weights ++ [zero]) =
      Evaluate true labels numClasses weights) /\
  (forall (labels1 labels2 : list nat) (weights1 weights2 : list double)
          (l numClasses : nat),
      length labels1 = length weights1 ->
      (l < numClasses)%nat ->
      Evaluate true (labels1 ++ l :: labels2) numClasses
               (weights1 ++ zero :: weights2) =
      Evaluate true (labels1 ++ labels2) numClasses (weights1 ++ weights2)).
Proof.
  split.
  - intros labels weights l numClasses Hlen Hl.
    rewrite (Evaluate_insert_zero_weight labels [] weights []) by assumption.
    rewrite !app_nil_r. reflexivity.
  - intros. apply Evaluate_insert_zero_weight; assumption.
Qed.

Lemma C10_witness :
  Evaluate true ([0; 1]%nat ++ [1%nat]) 2 ([one; Fin 2] ++ [zero]) =
  Evaluate true [0; 1]%nat 2 [one; Fin 2].
Proof.
  apply (proj1 C10_zero_weight_point_is_noop).
  - reflexivity.
  - lia.
Defined.

(** * Further properties of [Evaluate] and [Range] *)

(** ** Where [Evaluate] is defined *)

Lemma add_at_Some (v : list double) (k : nat) (w : double) :
  (k < length v)%nat -> exists v', add_at v k w = Some v'.
Proof.
  intros Hk. unfold add_at.
  destruct (nth_error v k) as [c |] eqn:E.
  - eexists. reflexivity.
  - apply nth_error_None in E. lia.
Qed.

Lemma add_at_Some_inv (v v' : list double) (k : nat) (w : double) :
  add_at v k w = Some v' -> (k < length v)%nat.
Proof.
  intros H. destruct (lt_dec k (length v)) as [Hk | Hk]; trivial.
  rewrite add_at_None in H by lia. discriminate.
Qed.

Lemma tally_all_defined (labels : list nat) (v : list double) :
  tally_all labels v <> None <-> in_range (length v) labels.
Proof.
  split.
  - intros H. destruct (in_range_dec (length v) labels) as [Hr | Hr]; trivial.
    exfalso. apply H. apply tally_all_out_of_range. exact Hr.
  - revert v. induction labels as [| l labels IH]; intros v Hr.
    + discriminate.
    + inversion Hr as [| ? ? Hl Hr']; subst. simpl.
      destruct (add_at_Some v l one Hl) as [v1 E]. rewrite E. simpl.
      apply IH. rewrite (add_at_length _ _ _ _ E). exact Hr'.
Qed.

Lemma tally_weighted_all_defined (labels : list nat) :
  forall (weights : list double) (st : list double * double),
    tally_weighted_all labels weights st <> None <->
    in_range (length (fst st)) labels /\
    (length labels <= length weights)%nat.
Proof.
  induction labels as [| l labels IH]; intros weights st.
  - simpl. split.
    + intros _. split; [constructor | lia].
    + discriminate.
  - destruct weights as [| w weights].
    + simpl. split; [intros H; contradiction | intros [_ H]; lia].
    + cbn [tally_weighted_all].
      destruct (add_at (fst st) l w) as [v1 |] eqn:E; cbn [bind].
      * rewrite IH. cbn [fst]. rewrite (add_at_length _ _ _ _ E).
        pose proof (add_at_Some_inv _ _ _ _ E) as Hl. simpl length.
        split.
        -- intros [Hr Hlen]. split; [constructor; trivial | lia].
        -- intros [Hr Hlen]. inversion Hr; subst. split; [trivial | lia].
      * split; [intros H; contradiction |].
        intros [Hr _]. inversion Hr as [| ? ? Hl _]; subst.
        destruct (add_at_Some (fst st) l w Hl) as [v1 E1].
        rewrite E1 in E. discriminate.
Qed.

(** X1. [Evaluate] does no bounds check and has two ways only to read out
    of bounds: a label that is no index of [counts], and, in weighted mode,
    fewer weights than labels.  It is defined exactly when every label is
    below [numClasses] and, in weighted mode, the weight vector is at least
    as long as the label vector. *)
Theorem Evaluate_defined_iff (UseWeights : bool) (labels : list nat)
    (numClasses : nat) (weights : list double) :
  Evaluate UseWeights labels numClasses weights <> None <->
  in_range numClasses labels /\
  (UseWeights = true -> (length labels <= length weights)%nat).
Proof.
  destruct labels as [| l labels].
  - split.
    + intros _. split; [constructor | simpl; lia].
    + intros _. destruct UseWeights; discriminate.
  - destruct UseWeights.
    + rewrite Evaluate_weighted by discriminate.
      pose proof (tally_weighted_all_defined (l :: labels) weights
                    (zeros numClasses, zero)) as H.
      cbn [fst] in H. rewrite zeros_length in H.
      destruct (tally_weighted_all (l :: labels) weights
                  (zeros numClasses, zero)) as [[counts acc] |];
        cbn [bind fst snd].
      * split.
        -- intros _. destruct H as [H _].
           destruct H as [Hr Hlen]; [discriminate | auto].
        -- intros _. destruct (acc ==? zero)%D; discriminate.
      * split; [intros C; contradiction |].
        intros [Hr Hlen]. exfalso.
        apply (proj2 H (conj Hr (Hlen eq_refl))). reflexivity.
    + rewrite Evaluate_unweighted by discriminate.
      pose proof (tally_all_defined (l :: labels) (zeros numClasses)) as H.
      rewrite zeros_length in H.
      destruct (tally_all (l :: labels) (zeros numClasses)) as [counts |];
        cbn [bind].
      * split.
        -- intros _. split; [apply (proj1 H); discriminate | discriminate].
        -- discriminate.
      * split; [intros C; contradiction |].
        intros [Hr _]. exfalso. apply (proj2 H Hr). reflexivity.
Qed.

(** ** Weights beyond the labels *)

Lemma tally_weighted_all_firstn (labels : list nat) :
  forall (weights : list double) (st : list double * double),
    tally_weighted_all labels (firstn (length labels) weights) st =
    tally_weighted_all labels weights st.
Proof.
  induction labels as [| l labels IH]; intros weights st; simpl; trivial.
  destruct weights as [| w weights]; simpl; trivial.
  destruct (add_at (fst st) l w); simpl; trivial.
Qed.

(** X2. Weighted [Evaluate] reads [weights[i]] for [i < labels.n_elem]
    only: weights beyond the last label do not matter. *)
Theorem Evaluate_surplus_weights_ignored (labels : list nat)
    (numClasses : nat) (weights : list double) :
  Evaluate true labels numClasses (firstn (length labels) weights) =
  Evaluate true labels numClasses weights.
Proof.
  destruct labels as [| l labels]; [reflexivity |].
  rewrite !Evaluate_weighted by discriminate.
  rewrite tally_weighted_all_firstn. reflexivity.
Qed.

(** ** Weights that are not finite *)

Lemma add_not_finite_l (x y : double) :
  ~ is_finite x -> ~ is_finite (x + y)%D.
Proof. destruct x, y; simpl; tauto. Qed.

Lemma add_not_finite_r (x y : double) :
  ~ is_finite y -> ~ is_finite (x + y)%D.
Proof. destruct x, y; simpl; tauto. Qed.

Lemma fold_add_not_finite_acc (weights : list double) :
  forall (a : double),
    ~ is_finite a -> ~ is_finite (fold_left add weights a).
Proof.
  induction weights as [| w weights IH]; intros a Ha; simpl; trivial.
  apply IH. apply add_not_finite_l. exact Ha.
Qed.

(** One weight that is not finite makes the accumulated weight not
    finite. *)
Lemma sum_weights_not_finite (weights : list double) :
  forall (a : double),
    Exists (fun w => ~ is_finite w) weights ->
    ~ is_finite (fold_left add weights a).
Proof.
  induction weights as [| w weights IH]; intros a Hex.
  - inversion Hex.
  - simpl. inversion Hex as [? ? Hw | ? ? Hw]; subst.
    + apply fold_add_not_finite_acc. apply add_not_finite_r. exact Hw.
    + apply IH. exact Hw.
Qed.

Lemma eqb_not_finite (x : double) :
  ~ is_finite x -> (x ==? zero)%D = false.
Proof. destruct x; simpl; tauto. Qed.

(** No count passes the guard when the denominator is not finite. *)
Lemma div_not_finite_not_positive (c d : double) :
  ~ is_finite d -> (c / d >? zero)%D = false.
Proof.
  destruct d as [r | | |]; simpl; [tauto | | |]; intros _;
    destruct c; simpl; trivial; apply is_positive_false; lra.
Qed.

Lemma fold_gain_step_not_finite (d : double) (counts : list double) :
  ~ is_finite d ->
  forall (gain : double), fold_left (gain_step d) counts gain = gain.
Proof.
  intros Hd. induction counts as [| c counts IH]; intros gain; simpl; trivial.
  unfold gain_step at 2. rewrite div_not_finite_not_positive by assumption.
  apply IH.
Qed.

(** X3. A weight that is NaN or infinite is not rejected: it makes
    [accWeights] NaN or infinite, every [f] is then NaN or zero and fails
    the guard [f > 0.0], and weighted [Evaluate] returns [0.0], the value of
    a pure label set, whatever the labels and the other weights are. *)
Theorem Evaluate_not_finite_weight (labels : list nat) (numClasses : nat)
    (weights : list double) :
  in_range numClasses labels ->
  length weights = length labels ->
  Exists (fun w => ~ is_finite w) weights ->
  Evaluate true labels numClasses weights = Some zero.
Proof.
  intros Hr Hlen Hex.
  destruct labels as [| l labels]; [reflexivity |].
  rewrite Evaluate_weighted by discriminate.
  destruct (tally_weighted_all_acc (l :: labels) weights
              (zeros numClasses, zero)) as [counts Hc]; trivial.
  - cbn [fst]. rewrite zeros_length. exact Hr.
  - rewrite Hc. cbn [bind fst snd].
    pose proof (sum_weights_not_finite weights zero Hex) as Hacc.
    rewrite eqb_not_finite by assumption.
    rewrite fold_gain_step_not_finite by assumption. reflexivity.
Qed.

Lemma Evaluate_not_finite_weight_witness :
  Evaluate true [0; 1; 1]%nat 2 [one; NaN; Fin 2] = Some zero.
Proof.
  apply Evaluate_not_finite_weight.
  - repeat constructor.
  - reflexivity.
  - right. left. simpl. tauto.
Defined.

(** ** What the counting loops leave in [counts] *)

(** X4. For labels below [numClasses], the unweighted counting loop ends
    with [counts[c]] holding the number of points of class [c], for every
    class [c]. *)
Theorem counting_loop_counts (labels : list nat) (numClasses : nat) :
  in_range numClasses labels ->
  for_loop (length labels) (tally labels) (zeros numClasses) =
  Some (map (fun c => of_nat (count c labels)) (seq 0 numClasses)).
Proof.
  intros Hr. rewrite tally_for_loop, zeros_map_seq.
  rewrite tally_all_spec by assumption. f_equal.
  apply map_ext. intros c. unfold of_nat. f_equal. lra.
Qed.

Lemma counting_loop_counts_witness :
  for_loop (length [1; 0; 1]%nat) (tally [1; 0; 1]%nat) (zeros 3) =
  Some (map (fun c => of_nat (count c [1; 0; 1]%nat)) (seq 0 3)).
Proof. apply counting_loop_counts. repeat constructor. Defined.

(** ** The order of the points *)

Lemma in_range_Permutation (numClasses : nat) (labels labels' : list nat) :
  Permutation labels labels' ->
  in_range numClasses labels -> in_range numClasses labels'.
Proof. intros Hp. unfold in_range. rewrite Hp. trivial. Qed.

(** X6. Unweighted [Evaluate] does not depend on the order of the labels:
    two label vectors that are permutations of each other give the same
    result (and are undefined together). *)
Theorem Evaluate_unweighted_permutation (labels labels' : list nat)
    (numClasses : nat) (weights weights' : list double) :
  Permutation labels labels' ->
  Evaluate false labels numClasses weights =
  Evaluate false labels' numClasses weights'.
Proof.
  intros Hp.
  destruct labels as [| l labels].
  - apply Permutation_nil in Hp. subst. reflexivity.
  - assert (Hne' : labels' <> []).
    { intros ->. apply Permutation_sym, Permutation_nil in Hp. discriminate. }
    destruct (in_range_dec numClasses (l :: labels)) as [Hr | Hr].
    + pose proof (in_range_Permutation _ _ _ Hp Hr) as Hr'.
      rewrite !Evaluate_unweighted_value by (trivial; discriminate).
      f_equal. f_equal. apply entropy_ext. intros c _. unfold freq, count.
      rewrite (Permutation_length Hp).
      rewrite (proj1 (Permutation_count_occ Nat.eq_dec _ _) Hp c).
      reflexivity.
    + rewrite !Evaluate_out_of_range; trivial.
      intros Hr'. apply Hr.
      apply (in_range_Permutation _ _ _ (Permutation_sym Hp) Hr').
Qed.

Lemma Evaluate_unweighted_permutation_witness :
  Evaluate false [0; 1; 1]%nat 2 [] = Evaluate false [1; 0; 1]%nat 2 [].
Proof.
  apply Evaluate_unweighted_permutation.
  apply perm_trans with (l' := [1; 0; 1]%nat).
  - apply perm_swap.
  - apply Permutation_refl.
Defined.

(** ** When the result is zero in weighted mode *)

(** A sum with at most one term that is not zero is that term. *)
Lemma Rsum_single_term (g : nat -> R) (n c : nat) :
  (c < n)%nat ->
  (forall c', (c' < n)%nat -> c' <> c -> g c' = 0) ->
  Rsum (map g (seq 0 n)) = g c.
Proof.
  intros Hc H.
  rewrite (map_ext_in g (fun x => if Nat.eqb c x then g c else 0)).
  - apply Rsum_indicator. lia.
  - intros x Hx. apply in_seq in Hx.
    destruct (Nat.eqb_spec c x) as [-> | E]; trivial.
    apply H; [lia | congruence].
Qed.

(** X8. On valid input, weighted [Evaluate] returns [0.0] when at most
    one class carries positive weight: points of weight zero do not count,
    whatever their class, and a total weight of zero leaves no such class
    at all. *)
Theorem Evaluate_weighted_zero_if (labels : list nat) (numClasses : nat)
    (weights : list double) :
  valid true labels numClasses weights ->
  (forall c c', (c < numClasses)%nat -> (c' < numClasses)%nat ->
                0 < wcount c labels weights ->
                0 < wcount c' labels weights -> c = c') ->
  Evaluate true labels numClasses weights = Some zero.
Proof.
  intros Hv Hu. pose proof Hv as [Hr Hw].
  destruct (Hw eq_refl) as [Hlen Hnn].
  pose proof (Forall_nonneg_finite _ Hnn) as Hfin.
  destruct labels as [| l labels]; [reflexivity |].
  assert (Hne : l :: labels <> []) by discriminate.
  destruct (Req_dec_T (total weights) 0) as [H0 | H0].
  - apply Evaluate_weighted_zero; assumption.
  - rewrite Evaluate_weighted_value by assumption.
    f_equal. unfold zero. f_equal.
    apply entropy_zero_terms. intros c Hc. unfold wfreq.
    pose proof (wcount_nonneg c (l :: labels) weights Hnn) as Hc0.
    destruct (Req_dec_T (wcount c (l :: labels) weights) 0) as [E | E].
    + rewrite E. unfold Rdiv. rewrite Rmult_0_l. apply plogp_0.
    + assert (Hs : Rsum (map (fun c => wcount c (l :: labels) weights)
                              (seq 0 numClasses)) =
                    wcount c (l :: labels) weights).
      { apply (Rsum_single_term
                 (fun c => wcount c (l :: labels) weights)
                 numClasses c); trivial.
        intros c' Hc' Hcc'.
        pose proof (wcount_nonneg c' (l :: labels) weights Hnn) as Hc'0.
        destruct (Req_dec_T (wcount c' (l :: labels) weights) 0)
          as [E' | E']; trivial.
        exfalso. apply Hcc'. apply Hu; trivial; lra. }
      rewrite Rsum_wcount in Hs by assumption.
      rewrite <- Hs. unfold Rdiv. rewrite Rinv_r by assumption.
      apply plogp_1.
Qed.

Lemma Evaluate_weighted_zero_if_witness :
  Evaluate true [0; 1; 0]%nat 2 [Fin 2; zero; one] = Some zero.
Proof.
  apply Evaluate_weighted_zero_if.
  - valid_input.
  - intros c c' Hc Hc' H H'.
    assert (Hcases : c = 0%nat \/ c = 1%nat) by lia.
    assert (Hcases' : c' = 0%nat \/ c' = 1%nat) by lia.
    destruct Hcases as [-> | ->], Hcases' as [-> | ->];
      trivial; simpl in H, H'; lra.
Defined.

(** ** The same points several times *)

Lemma count_app (c : nat) (xs ys : list nat) :
  count c (xs ++ ys) = (count c xs + count c ys)%nat.
Proof. unfold count. apply count_occ_app. Qed.

Lemma count_concat_repeat (c : nat) (labels : list nat) (k : nat) :
  count c (concat (repeat labels k)) = (k * count c labels)%nat.
Proof.
  induction k as [| k IH]; [reflexivity |].
  cbn [repeat concat]. rewrite count_app, IH. lia.
Qed.

Lemma length_concat_repeat (labels : list nat) (k : nat) :
  length (concat (repeat labels k)) = (k * length labels)%nat.
Proof.
  induction k as [| k IH]; [reflexivity |].
  cbn [repeat concat]. rewrite length_app, IH. lia.
Qed.

Lemma in_range_concat_repeat (numClasses : nat) (labels : list nat)
    (k : nat) :
  (1 <= k)%nat ->
  in_range numClasses (concat (repeat labels k)) <->
  in_range numClasses labels.
Proof.
  intros Hk. unfold in_range. induction k as [| k IH]; [lia |].
  cbn [repeat concat]. rewrite Forall_app.
  destruct k as [| k].
  - simpl. split; [tauto | intros H; split; [exact H | constructor]].
  - split; [tauto |]. intros H. split; trivial. apply IH; [lia | exact H].
Qed.

(** X10. Unweighted [Evaluate] depends on the proportions of the classes
    only, not on the number of points: the label vector written [k >= 1]
    times in a row gives the result of the label vector itself. *)
Theorem Evaluate_unweighted_replicated (labels : list nat) (k : nat)
    (numClasses : nat) (weights weights' : list double) :
  (1 <= k)%nat ->
  Evaluate false (concat (repeat labels k)) numClasses weights =
  Evaluate false labels numClasses weights'.
Proof.
  intros Hk.
  pose proof (length_concat_repeat labels k) as Hlen.
  destruct labels as [| l labels].
  - destruct (concat (repeat [] k)) as [| x xs]; [reflexivity |].
    simpl in Hlen. lia.
  - assert (Hne : concat (repeat (l :: labels) k) <> []).
    { intros E. rewrite E in Hlen. simpl in Hlen. lia. }
    destruct (in_range_dec numClasses (l :: labels)) as [Hr | Hr].
    + rewrite !Evaluate_unweighted_value;
        trivial; try discriminate;
        try (apply in_range_concat_repeat; assumption).
      f_equal. f_equal. apply entropy_ext. intros c _. unfold freq.
      rewrite count_concat_repeat, Hlen, !mult_INR.
      assert (INR k <> 0) by (apply not_0_INR; lia).
      assert (INR (length (l :: labels)) <> 0)
        by (apply INR_length_nonzero; discriminate).
      field. split; assumption.
    + rewrite !Evaluate_out_of_range; trivial.
      rewrite in_range_concat_repeat by assumption. exact Hr.
Qed.

Lemma Evaluate_unweighted_replicated_witness :
  Evaluate false (concat (repeat [0; 1; 1]%nat 3)) 2 [] =
  Evaluate false [0; 1; 1]%nat 2 [].
Proof. apply Evaluate_unweighted_replicated. lia. Defined.

(** ** Weights that are whole numbers *)

Lemma count_repeat (c l k : nat) :
  INR (count c (repeat l k)) = if Nat.eqb l c then INR k else 0.
Proof.
  unfold count. destruct (Nat.eqb_spec l c) as [E | E].
  - rewrite count_occ_repeat_eq by congruence. reflexivity.
  - rewrite count_occ_repeat_neq by congruence. reflexivity.
Qed.

Lemma wcount_of_nat (c : nat) (labels : list nat) :
  forall (ks : list nat),
    wcount c labels (map of_nat ks) =
    INR (count c (replicate_points labels ks)).
Proof.
  unfold replicate_points.
  induction labels as [| l labels IH]; intros ks; [reflexivity |].
  destruct ks as [| k ks]; [reflexivity |].
  cbn [map wcount combine flat_map fst snd].
  rewrite IH, count_app, plus_INR, count_repeat. reflexivity.
Qed.

Lemma total_of_nat (labels : list nat) :
  forall (ks : list nat),
    length ks = length labels ->
    total (map of_nat ks) = INR (length (replicate_points labels ks)).
Proof.
  unfold replicate_points, total, Rsum.
  induction labels as [| l labels IH]; intros ks Hlen.
  - destruct ks; [reflexivity | discriminate].
  - destruct ks as [| k ks]; try discriminate. injection Hlen as Hlen.
    cbn [map fold_right combine flat_map fst snd value of_nat].
    rewrite IH by assumption.
    rewrite length_app, plus_INR, repeat_length. reflexivity.
Qed.

Lemma in_range_replicate_points (numClasses : nat) (labels : list nat) :
  forall (ks : list nat),
    in_range numClasses labels ->
    in_range numClasses (replicate_points labels ks).
Proof.
  unfold replicate_points, in_range.
  induction labels as [| l labels IH]; intros ks Hr; [constructor |].
  destruct ks as [| k ks]; [constructor |].
  inversion Hr as [| ? ? Hl Hr']; subst.
  cbn [combine flat_map fst snd]. apply Forall_app. split.
  - apply Forall_repeat. exact Hl.
  - apply IH. exact Hr'.
Qed.

Lemma of_nat_finite (ks : list nat) : Forall is_finite (map of_nat ks).
Proof. induction ks; simpl; constructor; trivial. exact I. Qed.

(** X12. Whole-number weights are multiplicities: for labels below
    [numClasses], weighted [Evaluate] with the weight [k_i] on point [i]
    returns what unweighted [Evaluate] returns on the label vector in
    which point [i] stands [k_i] times. *)
Theorem Evaluate_weights_as_multiplicities (labels ks : list nat)
    (numClasses : nat) (weights' : list double) :
  in_range numClasses labels ->
  length ks = length labels ->
  Evaluate true labels numClasses (map of_nat ks) =
  Evaluate false (replicate_points labels ks) numClasses weights'.
Proof.
  intros Hr Hlen.
  pose proof (of_nat_finite ks) as Hfin.
  pose proof (total_of_nat labels ks Hlen) as Htot.
  pose proof (in_range_replicate_points numClasses labels ks Hr) as Hr'.
  assert (Hlen' : length (map of_nat ks) = length labels)
    by (rewrite length_map; exact Hlen).
  destruct (replicate_points labels ks) as [| x xs] eqn:E.
  - rewrite Evaluate_weighted_zero; trivial.
  - rewrite Evaluate_unweighted_value by (trivial; discriminate).
    assert (Hne : labels <> []).
    { intros ->. unfold replicate_points in E. discriminate. }
    assert (Hn : INR (length (x :: xs)) <> 0)
      by (apply INR_length_nonzero; discriminate).
    rewrite Evaluate_weighted_value; trivial; [| rewrite Htot; exact Hn].
    f_equal. f_equal. apply entropy_ext. intros c _. unfold wfreq, freq.
    rewrite wcount_of_nat, Htot, E. reflexivity.
Qed.

Lemma Evaluate_weights_as_multiplicities_witness :
  Evaluate true [0; 1]%nat 2 (map of_nat [3; 1]%nat) =
  Evaluate false (replicate_points [0; 1]%nat [3; 1]%nat) 2 [].
Proof.
  apply Evaluate_weights_as_multiplicities.
  - repeat constructor.
  - reflexivity.
Defined.

(** ** More on [Range] *)

(** X13. [Range] of zero classes is not an error but minus infinity;
    [Range] is finite exactly on a positive number of classes. *)
Theorem Range_finite_iff (numClasses : nat) :
  Range 0 = NInf /\
  (is_finite (Range numClasses) <-> (1 <= numClasses)%nat).
Proof.
  split.
  - unfold Range, of_nat, log2. simpl INR. rewrite Rsign_zero. reflexivity.
  - split.
    + intros H. destruct numClasses as [| n]; [| lia].
      unfold Range, of_nat, log2 in H. simpl INR in H.
      rewrite Rsign_zero in H. contradiction.
    + intros H. rewrite Range_value by assumption. exact I.
Qed.

(** X15. [Range] of a power of two is the exponent. *)
Theorem Range_power_of_two (k : nat) : Range (2 ^ k) = Fin (INR k).
Proof.
  assert (H : (1 <= 2 ^ k)%nat).
  { clear. induction k as [| k IH]; simpl; lia. }
  rewrite Range_value by exact H. f_equal.
  unfold Rlog2. rewrite pow_INR. change (INR 2) with 2.
  rewrite ln_pow by lra. pose proof ln_2_pos. field. lra.
Qed.
